(** * ortho-evidence-v2: batch PubMed fetch and debug probes

    A shallow embedding of [batch_pubmed_fetch.py] and [pubmed_debug.py].

    The two scripts are thin control flow around three operations of the
    module [pubmed_api] (search, detail fetch, CSV merge), around
    [requests.get], [os.environ], [time.sleep] and [print].  The embedding
    keeps that shape: Python values are a small inductive type with the
    dynamic checks written out ([in], subscripting, [.get], [len],
    truthiness), exceptions are values with a class, and the code runs in a
    state-and-exception monad whose state carries the persisted store, the
    environment variable and the trace of external calls and printed lines. *)

From Stdlib Require Import ZArith List String Ascii Bool Lia.
Import ListNotations.

Open Scope string_scope.
Open Scope Z_scope.

(** ** Python values and exceptions *)

Module Py.

(** The values that a decoded JSON document or a helper's result can
    be.  A [dict] is its item list; lookup takes the first binding. *)
#[warnings="-register-all"]
Inductive PyVal : Type :=
| PNone
| PBool (b : bool)
| PInt (z : Z)
| PStr (s : string)
| PList (l : list PyVal)
| PDict (d : list (string * PyVal)).

(** Exception classes, all below [Exception].  Interrupts of the process
    ([KeyboardInterrupt], [SystemExit]) are not exceptions of the program
    and are outside the model. *)
Inductive ExcClass : Type :=
| Exception
| TypeError
| AttributeError
| KeyError
| UnboundLocalError
| ValueError
| ArithmeticError
| OverflowError
| OSError
| FileNotFoundError
| JSONDecodeError          (* json.JSONDecodeError *)
| RequestException         (* requests.exceptions.RequestException *)
| HTTPError                (* requests.exceptions.HTTPError *)
| ConnectionError          (* requests.exceptions.ConnectionError *)
| Timeout                  (* requests.exceptions.Timeout *)
| RequestsJSONDecodeError. (* requests.exceptions.JSONDecodeError *)

Definition ExcClass_eqb (a b : ExcClass) : bool :=
  match a, b with
  | Exception, Exception | TypeError, TypeError
  | AttributeError, AttributeError | KeyError, KeyError
  | UnboundLocalError, UnboundLocalError | ValueError, ValueError
  | ArithmeticError, ArithmeticError | OverflowError, OverflowError
  | OSError, OSError | FileNotFoundError, FileNotFoundError
  | JSONDecodeError, JSONDecodeError
  | RequestException, RequestException | HTTPError, HTTPError
  | ConnectionError, ConnectionError | Timeout, Timeout
  | RequestsJSONDecodeError, RequestsJSONDecodeError => true
  | _, _ => false
  end.

(** Proper ancestors of a class. *)
Definition ancestors (c : ExcClass) : list ExcClass :=
  match c with
  | Exception => []
  | TypeError | AttributeError | KeyError | UnboundLocalError
  | ValueError | ArithmeticError | OSError => [Exception]
  | OverflowError => [ArithmeticError; Exception]
  | FileNotFoundError => [OSError; Exception]
  | JSONDecodeError => [ValueError; Exception]
  | RequestException => [OSError; Exception]
  | HTTPError | ConnectionError | Timeout =>
      [RequestException; OSError; Exception]
  | RequestsJSONDecodeError =>
      [RequestException; OSError; JSONDecodeError; ValueError; Exception]
  end.

Definition issubclass (c d : ExcClass) : bool :=
  existsb (ExcClass_eqb d) (c :: ancestors c).

Record Exc : Type := mkExc { exc_class : ExcClass; exc_msg : string }.

(** [isinstance(e, cls)], the test of an [except cls] clause. *)
Definition isinstance (cls : ExcClass) (e : Exc) : bool :=
  issubclass (exc_class e) cls.

(** [str(e)] *)
Definition str_exc (e : Exc) : string := exc_msg e.

(** The result of evaluating an expression: a value or a raised
    exception. *)
Definition Res (A : Type) : Type := (Exc + A)%type.

(** [bool(v)] *)
Definition truthy (v : PyVal) : bool :=
  match v with
  | PNone => false
  | PBool b => b
  | PInt z => negb (z =? 0)
  | PStr s => negb (s =? "")%string
  | PList l => match l with [] => false | _ => true end
  | PDict d => match d with [] => false | _ => true end
  end.

Fixpoint lookup (k : string) (d : list (string * PyVal)) : option PyVal :=
  match d with
  | [] => None
  | (k', v) :: rest => if (k =? k')%string then Some v else lookup k rest
  end.

Definition type_name (v : PyVal) : string :=
  match v with
  | PNone => "NoneType" | PBool _ => "bool" | PInt _ => "int"
  | PStr _ => "str" | PList _ => "list" | PDict _ => "dict"
  end.

Definition is_substring (k s : string) : bool :=
  match index 0 k s with Some _ => true | None => false end.

Definition is_str (k : string) (v : PyVal) : bool :=
  match v with PStr s => (s =? k)%string | _ => false end.

(** [k in v] for a string [k]: key test on a dict, membership on a list,
    substring on a string, [TypeError] on anything else. *)
Definition contains (k : string) (v : PyVal) : Res bool :=
  match v with
  | PDict d => inr (match lookup k d with Some _ => true | None => false end)
  | PList l => inr (existsb (is_str k) l)
  | PStr s => inr (is_substring k s)
  | _ => inl (mkExc TypeError
                ("argument of type '" ++ type_name v ++ "' is not iterable"))
  end.

(** [v[k]] for a string [k]. *)
Definition getitem (v : PyVal) (k : string) : Res PyVal :=
  match v with
  | PDict d =>
      match lookup k d with
      | Some x => inr x
      | None => inl (mkExc KeyError ("'" ++ k ++ "'"))
      end
  | PStr _ => inl (mkExc TypeError "string indices must be integers")
  | PList _ =>
      inl (mkExc TypeError "list indices must be integers or slices, not str")
  | _ => inl (mkExc TypeError
                ("'" ++ type_name v ++ "' object is not subscriptable"))
  end.

(** [v.get(k, default)]: only a dict has the method. *)
Definition get (v : PyVal) (k : string) (default : PyVal) : Res PyVal :=
  match v with
  | PDict d =>
      inr (match lookup k d with Some x => x | None => default end)
  | _ => inl (mkExc AttributeError
                ("'" ++ type_name v ++ "' object has no attribute 'get'"))
  end.

(** [len(v)] *)
Definition len (v : PyVal) : Res Z :=
  match v with
  | PStr s => inr (Z.of_nat (String.length s))
  | PList l => inr (Z.of_nat (List.length l))
  | PDict d => inr (Z.of_nat (List.length d))
  | _ => inl (mkExc TypeError
                ("object of type '" ++ type_name v ++ "' has no len()"))
  end.

Fixpoint chars (s : string) : list string :=
  match s with
  | EmptyString => []
  | String c rest => String c EmptyString :: chars rest
  end.

Fixpoint all_str (l : list PyVal) : option (list string) :=
  match l with
  | [] => Some []
  | PStr s :: rest =>
      match all_str rest with Some ss => Some (s :: ss) | None => None end
  | _ :: _ => None
  end.

(** [sep.join(v)]: the items of the iterable must all be strings;
    iterating a string gives its characters and iterating a dict its
    keys. *)
Definition join (sep : string) (v : PyVal) : Res string :=
  match v with
  | PList l =>
      match all_str l with
      | Some ss => inr (String.concat sep ss)
      | None => inl (mkExc TypeError "sequence item: expected str instance")
      end
  | PStr s => inr (String.concat sep (chars s))
  | PDict d => inr (String.concat sep (map fst d))
  | _ => inl (mkExc TypeError "can only join an iterable")
  end.

End Py.
Import Py.

(** ** State and exception monad *)

Module Monad.

(** A computation over a state [S]: the state it leaves and either the
    exception it raised or its value.  State changes made before a
    [raise] are kept, as in Python. *)
Definition M (S A : Type) : Type := S -> S * Res A.

Definition ret {S A} (a : A) : M S A := fun s => (s, inr a).

Definition raise {S A} (e : Exc) : M S A := fun s => (s, inl e).

Definition bind {S A B} (c : M S A) (k : A -> M S B) : M S B :=
  fun s =>
    match c s with
    | (s', inr a) => k a s'
    | (s', inl e) => (s', inl e)
    end.

(** An expression that may raise, evaluated without touching the state. *)
Definition eval {S A} (r : Res A) : M S A := fun s => (s, r).

Definition gets {S A} (f : S -> A) : M S A := fun s => (s, inr (f s)).

Definition modify {S} (f : S -> S) : M S unit := fun s => (f s, inr tt).

(** [try: body  except C1 as e: h1  except C2 as e: h2 ...]: the first
    clause whose class matches handles the exception; an exception no
    clause matches, or one raised by a handler, propagates. *)
Fixpoint select_clause {S A}
    (clauses : list (ExcClass * (Exc -> M S A))) (e : Exc)
  : option (Exc -> M S A) :=
  match clauses with
  | [] => None
  | (cls, h) :: rest =>
      if isinstance cls e then Some h else select_clause rest e
  end.

Definition try_except {S A} (body : M S A)
    (clauses : list (ExcClass * (Exc -> M S A))) : M S A :=
  fun s =>
    match body s with
    | (s', inr a) => (s', inr a)
    | (s', inl e) =>
        match select_clause clauses e with
        | Some h => h e s'
        | None => (s', inl e)
        end
    end.

End Monad.
Import Monad.

Notation "x <- c ;; k" := (bind c (fun x => k))
  (at level 61, c at next level, right associativity).
Notation "c ;;; k" := (bind c (fun _ => k))
  (at level 61, right associativity).

(** ** Data model *)

(** An Article Record, with the fields [display_debug_ui] reads from it.
    [pmid] is the identifier the store is keyed by. *)
Record Article : Type := mkArticle {
  pmid : string;
  title : string;
  authors : string;
  journal : string;
  publication_year : string;
  doi : string;
  study_type : string;
  abstract : string;
  url : string
}.

(** The rows of [papers.csv], in file order. *)
Definition Rows : Type := list Article.

Definition ids (rows : Rows) : list string := map pmid rows.

(** The answer of [requests.get]: status code, body text, and what
    [response.json()] does on that body (the decoded document, or the
    decode error it raises). *)
Record Response : Type := mkResponse {
  status_code : Z;
  text : string;
  json : Res PyVal
}.

(** Lines written by [print], by what they report rather than by their
    wording. *)
Inductive Line : Type :=
| LKeyFound                              (* API key found *)
| LKeyMissing                            (* API key not found *)
| LKeyHint                               (* advice to set a key *)
| LStart (n : Z)                         (* start: n keywords *)
| LKeyword (i n : Z) (keyword : string)  (* [i/n] keyword *)
| LSearching
| LFound (n : Z)                         (* n articles found *)
| LFetchingDetails
| LAddedNew (n : Z)                      (* n new articles added *)
| LAdded (n : Z)                         (* n articles added *)
| LDetailsFailed
| LNoResults
| LInvalidFormat (search_results : PyVal)
| LError (msg : string)                  (* an error occurred: msg *)
| LWaiting (secs : Z)
| LDone (total new : Z)
| LStats (db : Rows)                     (* the statistics of the table read *)
| LStatsError (msg : string).

(** What the program does to the outside, in order: each call with its
    arguments and with what it answered (a value or an exception).  A
    call of [time.sleep] is recorded with its argument, which decides
    what the call does. *)
Inductive Event : Type :=
| CallSearch (keyword : string) (max_results days : Z) (answer : Res PyVal)
| CallDetails (pmid_list : PyVal) (answer : Res Rows)
| CallMerge (articles : Rows) (answer : Res Rows)
| CallSleep (secs : Z)
| CallGet (url : string) (answer : Res Response)
| ReadCsv (answer : Res Rows)
| Print (l : Line).

(** The process and its surroundings: [papers.csv] ([None] while the file
    does not exist), the variable [NCBI_API_KEY] of [os.environ], and the
    trace so far. *)
Record World : Type := mkWorld {
  store : option Rows;
  api_key_env : option string;
  trace : list Event
}.

Definition emit_ev (ev : Event) (w : World) : World :=
  mkWorld (store w) (api_key_env w) (trace w ++ [ev])%list.

Definition set_store (rows : Rows) (w : World) : World :=
  mkWorld (Some rows) (api_key_env w) (trace w).

(** The collaborators the scripts call.  Their answers may depend on
    everything that happened before (the world they are called in), and
    they may raise.
    - [fetch_pubmed_studies], [get_pubmed_article_details]: the search and
      detail-fetch operations of [pubmed_api];
    - [merge_fault]: whether a call of [update_papers_csv] fails, and how;
    - [requests_get]: the HTTP layer. *)
Record Env : Type := mkEnv {
  fetch_pubmed_studies_answer : string -> Z -> Z -> World -> Res PyVal;
  get_pubmed_article_details_answer : PyVal -> World -> Res Rows;
  merge_fault : Rows -> World -> option Exc;
  requests_get_answer : string -> World -> Res Response
}.

(** ** The store merger *)

(** [drop_duplicates(subset=identifier, keep='first')]: a row is kept
    unless its identifier was seen in an earlier row. *)
Fixpoint drop_duplicates_from (seen : list string) (rows : Rows) : Rows :=
  match rows with
  | [] => []
  | a :: rest =>
      if existsb (String.eqb (pmid a)) seen
      then drop_duplicates_from seen rest
      else a :: drop_duplicates_from (pmid a :: seen) rest
  end.

Definition drop_duplicates (rows : Rows) : Rows := drop_duplicates_from [] rows.

(** Modelled from the spec: [update_papers_csv] of [pubmed_api], which is
    not among the sources.  Section 4.2: if the store is absent the result
    is the new records deduplicated by identifier, first occurrence
    winning; otherwise the existing rows followed by the new rows,
    deduplicated the same way. *)
Definition merge_rows (existing : option Rows) (new_records : Rows) : Rows :=
  match existing with
  | None => drop_duplicates new_records
  | Some old => drop_duplicates (old ++ new_records)%list
  end.

(** The stores that a sequence of merges goes through, one per batch. *)
Fixpoint merge_history (existing : option Rows) (batches : list Rows)
  : list Rows :=
  match batches with
  | [] => []
  | b :: rest =>
      let merged := merge_rows existing b in
      merged :: merge_history (Some merged) rest
  end.

(** The longest wait [time.sleep] takes, in seconds: CPython keeps the
    wait in nanoseconds in a signed integer of 64 bits. *)
Definition sleep_max : Z := (2 ^ 63 - 1) / 1000000000.

(** What [time.sleep(secs)] answers. *)
Definition sleep_answer (secs : Z) : Res unit :=
  if secs <? 0 then
    inl (mkExc ValueError "sleep length must be non-negative")
  else if sleep_max <? secs then
    inl (mkExc OverflowError
           "timestamp too large to convert to C _PyTime_t")
  else inr tt.

Section Operations.

Context (env : Env).

Definition emit (ev : Event) : M World unit := modify (emit_ev ev).

Definition print (l : Line) : M World unit := emit (Print l).

(** [fetch_pubmed_studies(keyword, max_results, days_recent)] *)
Definition fetch_pubmed_studies (keyword : string) (max_results days : Z)
  : M World PyVal :=
  answer <- gets (fetch_pubmed_studies_answer env keyword max_results days) ;;
  emit (CallSearch keyword max_results days answer) ;;;
  eval answer.

(** [get_pubmed_article_details(pmid_list)] *)
Definition get_pubmed_article_details (pmid_list : PyVal) : M World Rows :=
  answer <- gets (get_pubmed_article_details_answer env pmid_list) ;;
  emit (CallDetails pmid_list answer) ;;;
  eval answer.

(** Modelled from the spec: [update_papers_csv(articles)] persists the
    merged rows and returns them (section 4.2).  A call that fails raises
    and leaves the file as it was (section 5: a merge commits at once,
    per term). *)
Definition update_papers_csv (articles : Rows) : M World Rows :=
  fault <- gets (merge_fault env articles) ;;
  match fault with
  | Some e => emit (CallMerge articles (inl e)) ;;; raise e
  | None =>
      existing <- gets store ;;
      let updated_df := merge_rows existing articles in
      modify (set_store updated_df) ;;;
      emit (CallMerge articles (inr updated_df)) ;;;
      ret updated_df
  end.

(** [os.path.exists('papers.csv')] *)
Definition os_path_exists_papers : M World bool :=
  gets (fun w => match store w with Some _ => true | None => false end).

(** [pd.read_csv('papers.csv')] *)
Definition read_csv_answer (existing : option Rows) : Res Rows :=
  match existing with
  | Some rows => inr rows
  | None => inl (mkExc FileNotFoundError
                   "[Errno 2] No such file or directory: 'papers.csv'")
  end.

Definition read_csv_papers : M World Rows :=
  answer <- gets (fun w => read_csv_answer (store w)) ;;
  emit (ReadCsv answer) ;;;
  eval answer.

(** [os.environ.get("NCBI_API_KEY")] *)
Definition environ_get_api_key : M World (option string) := gets api_key_env.

(** [time.sleep(secs)] for an int: a negative length is refused with a
    [ValueError], a length above [sleep_max] with an
    [OverflowError]; otherwise the process waits and goes on. *)
Definition sleep (secs : Z) : M World unit :=
  emit (CallSleep secs) ;;;
  eval (sleep_answer secs).

(** [requests.get(url)] *)
Definition requests_get (u : string) : M World Response :=
  answer <- gets (requests_get_answer env u) ;;
  emit (CallGet u answer) ;;;
  eval answer.

End Operations.

(** ** batch_pubmed_fetch.py *)

Definition ORTHO_KEYWORDS : list string :=
  [ "dental crowding evidence";
    "open bite treatment orthodontic";
    "deep bite treatment orthodontic";
    "crossbite treatment evidence";
    "overjet treatment orthodontic";
    "underbite treatment evidence";
    "orthodontic treatment timing children";
    "orthodontic treatment timing adolescent";
    "orthodontic treatment timing adult";
    "orthodontic treatment elderly";
    "malocclusion risk untreated";
    "orthodontic treatment long term effect";
    "dental crowding oral health risk";
    "malocclusion periodontal risk";
    "malocclusion caries risk";
    "orthodontic treatment cost effectiveness";
    "orthodontic systematic review";
    "orthodontic meta-analysis";
    "malocclusion randomized controlled trial";
    "orthodontic treatment cohort study";
    "japanese orthodontic treatment";
    "asian orthodontic treatment";
    "japanese malocclusion prevalence" ].

(** [if api_key:] on the result of [os.environ.get]: [None] and the empty
    string are false. *)
Definition api_key_truthy (api_key : option string) : bool :=
  match api_key with
  | None => false
  | Some k => negb (k =? "")%string
  end.

(** The pause between requests: [max(1, pause_seconds // 3)] with a key,
    [pause_seconds] without. *)
Definition actual_pause (api_key : option string) (pause_seconds : Z) : Z :=
  if api_key_truthy api_key then Z.max 1 (pause_seconds / 3)
  else pause_seconds.

(** The local variables of [batch_fetch_articles] that outlive an
    iteration, next to the world. *)
Record Frame : Type := mkFrame {
  world : World;
  total_articles : Z;
  total_new_articles : Z
}.

Definition in_world {A} (c : M World A) : M Frame A :=
  fun f =>
    let '(w, r) := c (world f) in
    (mkFrame w (total_articles f) (total_new_articles f), r).

Definition add_total_articles (n : Z) : M Frame unit :=
  modify (fun f => mkFrame (world f) (total_articles f + n)
                     (total_new_articles f)).

Definition add_total_new_articles (n : Z) : M Frame unit :=
  modify (fun f => mkFrame (world f) (total_articles f)
                     (total_new_articles f + n)).

Definition len_rows (rows : Rows) : Z := Z.of_nat (List.length rows).

Definition rows_truthy (rows : Rows) : bool :=
  match rows with [] => false | _ => true end.

(** The tally line 117 computes when the file existed before the merge. *)
Definition new_articles (articles updated_df : Rows) : Z :=
  len_rows articles - (len_rows updated_df - len_rows articles).

Section Batch.

Context (env : Env).

(** ['esearchresult' in search_results and
     'idlist' in search_results['esearchresult']] *)
Definition has_idlist (search_results : PyVal) : Res bool :=
  match contains "esearchresult" search_results with
  | inl e => inl e
  | inr false => inr false
  | inr true =>
      match getitem search_results "esearchresult" with
      | inl e => inl e
      | inr es => contains "idlist" es
      end
  end.

(** The body of the [try] of one iteration (lines 93-130). *)
Definition try_keyword (keyword : string) (max_per_keyword days_recent : Z)
  : M Frame unit :=
  in_world (print LSearching) ;;;
  search_results <-
    in_world (fetch_pubmed_studies env keyword max_per_keyword days_recent) ;;
  shaped <- eval (has_idlist search_results) ;;
  if shaped : bool then
    es <- eval (getitem search_results "esearchresult") ;;
    pmid_list <- eval (getitem es "idlist") ;;
    if truthy pmid_list then
      found <- eval (len pmid_list) ;;
      in_world (print (LFound found)) ;;;
      in_world (print LFetchingDetails) ;;;
      articles <- in_world (get_pubmed_article_details env pmid_list) ;;
      if rows_truthy articles then
        csv_exists <- in_world os_path_exists_papers ;;
        updated_df <- in_world (update_papers_csv env articles) ;;
        (if csv_exists : bool then
           add_total_new_articles (new_articles articles updated_df) ;;;
           in_world (print (LAddedNew (new_articles articles updated_df)))
         else
           add_total_new_articles (len_rows articles) ;;;
           in_world (print (LAdded (len_rows articles)))) ;;;
        add_total_articles (len_rows articles)
      else in_world (print LDetailsFailed)
    else in_world (print LNoResults)
  else in_world (print (LInvalidFormat search_results)).

(** One iteration of the loop for the keyword at index [i] of [n]
    (lines 90-138): the [try] with its [except Exception], then the pause
    unless this is the last keyword. *)
Definition iteration (n : Z) (pause max_per_keyword days_recent : Z)
    (i : Z) (keyword : string) : M Frame unit :=
  in_world (print (LKeyword (i + 1) n keyword)) ;;;
  try_except (try_keyword keyword max_per_keyword days_recent)
    [ (Exception, fun e => in_world (print (LError (str_exc e)))) ] ;;;
  if i <? n - 1 then
    in_world (print (LWaiting pause)) ;;;
    in_world (sleep pause)
  else ret tt.

(** [for i, keyword in enumerate(keywords)], from index [i] on. *)
Fixpoint for_keywords (n : Z) (pause max_per_keyword days_recent : Z)
    (i : Z) (keywords : list string) : M Frame unit :=
  match keywords with
  | [] => ret tt
  | keyword :: rest =>
      iteration n pause max_per_keyword days_recent i keyword ;;;
      for_keywords n pause max_per_keyword days_recent (i + 1) rest
  end.

(** The summary at the end (lines 143-160): best effort. *)
Definition print_statistics : M Frame unit :=
  try_except
    (db_df <- in_world read_csv_papers ;;
     in_world (print (LStats db_df)))
    [ (Exception, fun e => in_world (print (LStatsError (str_exc e)))) ].

Definition batch_fetch_articles_frame (keywords : option (list string))
    (max_per_keyword days_recent pause_seconds : Z) : M Frame Z :=
  let keywords :=
    match keywords with None => ORTHO_KEYWORDS | Some l => l end in
  api_key <- in_world environ_get_api_key ;;
  (if api_key_truthy api_key
   then in_world (print LKeyFound)
   else in_world (print LKeyMissing) ;;; in_world (print LKeyHint)) ;;;
  let pause := actual_pause api_key pause_seconds in
  let n := Z.of_nat (List.length keywords) in
  in_world (print (LStart n)) ;;;
  for_keywords n pause max_per_keyword days_recent 0 keywords ;;;
  total <- gets total_articles ;;
  total_new <- gets total_new_articles ;;
  in_world (print (LDone total total_new)) ;;;
  print_statistics ;;;
  gets total_new_articles.

(** [batch_fetch_articles(keywords, max_per_keyword, days_recent,
    pause_seconds)]: the two totals start at 0. *)
Definition batch_fetch_articles (keywords : option (list string))
    (max_per_keyword days_recent pause_seconds : Z) : M World Z :=
  fun w =>
    let '(f, r) :=
      batch_fetch_articles_frame keywords max_per_keyword days_recent
        pause_seconds (mkFrame w 0 0) in
    (world f, r).

End Batch.

(** ** pubmed_debug.py *)

Inductive Status : Type := success | warning | error.

(** The [message] of a result, by what it says. *)
Inductive Message : Type :=
| MConnectionOk          (* basic connection test succeeded *)
| MUnexpectedFormat      (* the API answers, in an unexpected format *)
| MConnectionFailed      (* could not connect to the API *)
| MInvalidJson           (* the response is not valid JSON *)
| MSearchInvalid         (* the search result is empty or malformed *)
| MNoHits                (* the search found nothing *)
| MDetailsFailed         (* could not fetch the article details *)
| MFetched (n : Z)       (* n articles fetched *)
| MSearchFailed.         (* an error occurred during the test search *)

(** The [details] of a result. *)
Inductive Details : Type :=
| DVersion (code : Z) (version : PyVal)   (* status code and API version *)
| DBody (code : Z) (body : string)        (* status code and body[:200] *)
| DText (s : string)                      (* str(e) *)
| DRepr (v : PyVal)                       (* str(search_results) *)
| DKeyword (keyword : string)
| DPmids (joined : string)                (* "PMID: " and the joined ids *)
| DArticles (articles : Rows).

Record Result : Type := mkResult {
  status : Status;
  message : Message;
  details : Details;
  result_pmid_list : option PyVal   (* the key "pmid_list", when present *)
}.

Definition einfo_url : string :=
  "https://eutils.ncbi.nlm.nih.gov/entrez/eutils/einfo.fcgi?retmode=json".

(** [response.raise_for_status()]: an [HTTPError] for a 4xx or 5xx status
    (its message, which names the status and the URL, is abridged). *)
Definition raise_for_status (r : Response) : Res unit :=
  if (400 <=? status_code r) && (status_code r <? 600)
  then inl (mkExc HTTPError "HTTP error")
  else inr tt.

(** The local variable [response] of [test_pubmed_connection], unbound
    until [requests.get] returns. *)
Record ProbeFrame : Type := mkProbeFrame {
  probe_world : World;
  response : option Response
}.

Definition in_probe_world {A} (c : M World A) : M ProbeFrame A :=
  fun f =>
    let '(w, r) := c (probe_world f) in (mkProbeFrame w (response f), r).

Definition bind_response (r : Response) : M ProbeFrame unit :=
  modify (fun f => mkProbeFrame (probe_world f) (Some r)).

Definition read_response : M ProbeFrame Response :=
  fun f =>
    match response f with
    | Some r => (f, inr r)
    | None =>
        (f, inl (mkExc UnboundLocalError
                   "cannot access local variable 'response'"))
    end.

Section Probes.

Context (env : Env).

Definition test_pubmed_connection_frame : M ProbeFrame Result :=
  try_except
    (r <- in_probe_world (requests_get env einfo_url) ;;
     bind_response r ;;;
     eval (raise_for_status r) ;;;
     result <- eval (json r) ;;
     has_key <- eval (contains "einforesult" result) ;;
     if has_key : bool then
       info <- eval (get result "einforesult" (PDict [])) ;;
       version <- eval (get info "version" (PStr "不明")) ;;
       ret (mkResult success MConnectionOk
              (DVersion (status_code r) version) None)
     else
       ret (mkResult warning MUnexpectedFormat
              (DBody (status_code r) (substring 0 200 (text r))) None))
    [ (RequestException,
        fun e => ret (mkResult error MConnectionFailed
                        (DText (str_exc e)) None));
      (JSONDecodeError,
        fun _ =>
          r <- read_response ;;
          ret (mkResult error MInvalidJson
                 (DBody (status_code r) (substring 0 200 (text r))) None)) ].

(** [test_pubmed_connection()] *)
Definition test_pubmed_connection : M World Result :=
  fun w =>
    let '(f, r) := test_pubmed_connection_frame (mkProbeFrame w None) in
    (probe_world f, r).

(** The body of the [try] of [perform_test_search] (lines 62-97). *)
Definition try_test_search (keyword : string) (max_results : Z)
  : M World Result :=
  search_results <- fetch_pubmed_studies env keyword max_results 30 ;;
  invalid <-
    eval (if negb (truthy search_results) then inr true
          else match contains "esearchresult" search_results with
               | inl e => inl e
               | inr b => inr (negb b)
               end) ;;
  if invalid : bool then
    ret (mkResult error MSearchInvalid (DRepr search_results) None)
  else
    es <- eval (get search_results "esearchresult" (PDict [])) ;;
    pmid_list <- eval (get es "idlist" (PList [])) ;;
    if negb (truthy pmid_list) then
      ret (mkResult warning MNoHits (DKeyword keyword) None)
    else
      articles <- get_pubmed_article_details env pmid_list ;;
      if negb (rows_truthy articles) then
        joined <- eval (join ", " pmid_list) ;;
        ret (mkResult warning MDetailsFailed (DPmids joined) None)
      else
        ret (mkResult success (MFetched (len_rows articles))
               (DArticles articles) (Some pmid_list)).

(** [perform_test_search(keyword, max_results)] *)
Definition perform_test_search (keyword : string) (max_results : Z)
  : M World Result :=
  try_except (try_test_search keyword max_results)
    [ (Exception,
        fun e => ret (mkResult error MSearchFailed (DText (str_exc e)) None)) ].

End Probes.

(** ** Observing a run *)

(** The events a computation adds to the trace when run in [w]. *)
Definition emitted {A} (c : M World A) (w : World) : list Event :=
  skipn (List.length (trace w)) (trace (fst (c w))).

(** The same for a computation over the frame of [batch_fetch_articles]. *)
Definition emitted_in {A} (c : M Frame A) (f : Frame) : list Event :=
  skipn (List.length (trace (world f))) (trace (world (fst (c f)))).

Definition is_merge (ev : Event) : bool :=
  match ev with CallMerge _ _ => true | _ => false end.


Definition is_call (ev : Event) : bool :=
  match ev with
  | CallSearch _ _ _ _ | CallDetails _ _ | CallMerge _ _ | CallSleep _
  | CallGet _ _ => true
  | ReadCsv _ | Print _ => false
  end.

(** The rhythm of a batch run: which keyword was searched, and where the
    program called [time.sleep]. *)
Inductive Beat : Type :=
| Searched (keyword : string) (max_results days : Z)
| Slept (secs : Z).

Definition beat (ev : Event) : list Beat :=
  match ev with
  | CallSearch k m d _ => [Searched k m d]
  | CallSleep s => [Slept s]
  | _ => []
  end.

Definition beats (evs : list Event) : list Beat := flat_map beat evs.


(** The keywords searched, in the order of the calls. *)
Definition searched_keywords (evs : list Event) : list string :=
  flat_map (fun ev => match ev with
                      | CallSearch k _ _ _ => [k]
                      | _ => []
                      end) evs.

(** One search per keyword, a sleep after each keyword but the last. *)
Fixpoint expected_beats (pause max_results days : Z) (keywords : list string)
  : list Beat :=
  match keywords with
  | [] => []
  | [k] => [Searched k max_results days]
  | k :: rest =>
      Searched k max_results days :: Slept pause
        :: expected_beats pause max_results days rest
  end.

(** The identifier list of a search result of the expected shape
    [{"esearchresult": {"idlist": ...}}]. *)
Definition search_idlist (search_results : PyVal) : option PyVal :=
  match search_results with
  | PDict d =>
      match lookup "esearchresult" d with
      | Some (PDict d') => lookup "idlist" d'
      | _ => None
      end
  | _ => None
  end.

Definition store_size (w : World) : Z :=
  match store w with Some rows => len_rows rows | None => 0 end.

(** The exception a failed call of a collaborator raised. *)
Definition failure_of (ev : Event) : option Exc :=
  match ev with
  | CallSearch _ _ _ (inl e) | CallDetails _ (inl e) | CallMerge _ (inl e) =>
      Some e
  | _ => None
  end.

(** Every failed call is followed at once by the line that reports its
    exception. *)
Fixpoint failures_logged (evs : list Event) : Prop :=
  match evs with
  | [] => True
  | ev :: rest =>
      match failure_of ev with
      | Some e => hd_error rest = Some (Print (LError (str_exc e)))
      | None => True
      end /\ failures_logged rest
  end.

(** The line the [except] clause of an iteration prints. *)
Definition handler_line (r : Res unit) : list Event :=
  match r with
  | inl e => [Print (LError (str_exc e))]
  | inr _ => []
  end.

(** An iteration that left the store and both totals as they were. *)
Definition untouched (f f' : Frame) : Prop :=
  store (world f') = store (world f) /\
  total_articles f' = total_articles f /\
  total_new_articles f' = total_new_articles f.

(** No call of the merge among the events. *)
Definition no_merge (evs : list Event) : Prop :=
  forallb (fun ev => negb (is_merge ev)) evs = true.

(** [wp c s Q]: running [c] in state [s] ends in a state and a result
    that satisfy [Q]. *)
Definition wp {S A} (c : M S A) (s : S) (Q : S -> Res A -> Prop) : Prop :=
  Q (fst (c s)) (snd (c s)).

(** What the pause that ends the iteration at index [i] of [n] answers;
    there is no pause after the last keyword. *)
Definition pause_answer (n pause i : Z) : Res unit :=
  if i <? n - 1 then sleep_answer pause else inr tt.

(** What the loop over [keywords] answers: its first pause decides, and
    there is one as soon as there are two keywords. *)
Definition loop_answer (pause : Z) (keywords : list string) : Res unit :=
  match keywords with
  | _ :: _ :: _ => sleep_answer pause
  | _ => inr tt
  end.

(** The searches and sleeps of the loop over [keywords]: all of them when
    the pauses return, and the first search and the first pause when
    [time.sleep] refuses the pause. *)
Definition loop_beats (pause max_results days : Z) (keywords : list string)
  : list Beat :=
  match loop_answer pause keywords, keywords with
  | inl _, keyword :: _ => [Searched keyword max_results days; Slept pause]
  | _, _ => expected_beats pause max_results days keywords
  end.

(** The pauses of a run over [keywords] return: there is none, the list
    having fewer than two keywords, or [time.sleep] accepts [pause]. *)
Definition pauses_return (pause : Z) (keywords : list string) : Prop :=
  (List.length keywords <= 1)%nat \/ 0 <= pause <= sleep_max.

(** What one iteration of the loop does, on every path: it answers what
    its pause answers, so that no exception of its [try] leaves it; it
    adds the events [evs], among them one search and, unless the keyword
    is the last, one sleep; every failed call is reported; and the store
    and the totals move only with a merge that returned. *)
Definition iteration_post (n pause m d i : Z) (keyword : string)
    (f f' : Frame) (r : Res unit) : Prop :=
  r = pause_answer n pause i /\
  exists evs,
    trace (world f') = (trace (world f) ++ evs)%list /\
    api_key_env (world f') = api_key_env (world f) /\
    beats evs =
      Searched keyword m d :: (if i <? n - 1 then [Slept pause] else []) /\
    failures_logged evs /\
    (forall ev e, In ev evs -> failure_of ev = Some e -> untouched f f') /\
    (forall p, In (CallDetails p (inr [])) evs ->
               untouched f f' /\ no_merge evs) /\
    (forall k' m' d' r0,
        In (CallSearch k' m' d' (inr r0)) evs ->
        search_idlist r0 = None \/
        (exists p, search_idlist r0 = Some p /\ truthy p = false) ->
        untouched f f' /\ no_merge evs) /\
    (forall a u,
        In (CallMerge a (inr u)) evs ->
        u = merge_rows (store (world f)) a /\
        store (world f') = Some u /\
        total_articles f' = total_articles f + len_rows a /\
        total_new_articles f' =
          total_new_articles f +
          match store (world f) with
          | Some _ => new_articles a u
          | None => len_rows a
          end) /\
    (no_merge evs -> untouched f f').

(** What the loop over the remaining keywords does. *)
Definition for_keywords_post (pause m d : Z) (keywords : list string)
    (f f' : Frame) (r : Res unit) : Prop :=
  r = loop_answer pause keywords /\
  exists evs,
    trace (world f') = (trace (world f) ++ evs)%list /\
    api_key_env (world f') = api_key_env (world f) /\
    beats evs = loop_beats pause m d keywords /\
    failures_logged evs /\
    (no_merge evs -> untouched f f').

(** What a whole run does: it raises what its loop raises, and returns a
    total otherwise. *)
Definition batch_post (keywords : list string) (m d pause_seconds : Z)
    (w w' : World) (r : Res Z) : Prop :=
  let pause := actual_pause (api_key_env w) pause_seconds in
  exists evs,
    trace w' = (trace w ++ evs)%list /\
    api_key_env w' = api_key_env w /\
    beats evs = loop_beats pause m d keywords /\
    failures_logged evs /\
    (no_merge evs -> store w' = store w) /\
    match loop_answer pause keywords with
    | inl e => r = inl e
    | inr _ => exists total, r = inr total /\ (no_merge evs -> total = 0)
    end.

(** [raise_for_status] let the response through. *)
Definition http_ok (resp : Response) : Prop := raise_for_status resp = inr tt.

(** What a result of [test_pubmed_connection] tells about the answer of
    [requests.get]: a success means the request went through, the body was
    decoded and the key was found in it; a warning means the same except
    that the key was not found. *)
Definition connection_post (answer : Res Response) (r : Res Result) : Prop :=
  (forall res, r = inr res -> status res = success ->
     exists resp v,
       answer = inr resp /\ http_ok resp /\ json resp = inr v /\
       contains "einforesult" v = inr true) /\
  (forall res, r = inr res -> status res = warning ->
     exists resp v,
       answer = inr resp /\ http_ok resp /\ json resp = inr v /\
       contains "einforesult" v = inr false).

(** What [perform_test_search] does, on every path: it returns a result
    whose status is one of the three tags, touches neither the store nor
    the environment, and
    - an empty identifier list in a well-shaped search result gives a
      warning;
    - a detail fetch that returns no record for a list of string
      identifiers gives a warning;
    - a detail fetch that returns records gives a success that carries
      them;
    - a search or detail fetch that raises gives an error that carries the
      message of the exception. *)
Definition test_search_post (keyword : string) (max_results : Z)
    (w w' : World) (r : Res Result) : Prop :=
  exists evs res,
    r = inr res /\
    trace w' = (trace w ++ evs)%list /\
    store w' = store w /\
    api_key_env w' = api_key_env w /\
    no_merge evs /\
    (status res = success \/ status res = warning \/ status res = error) /\
    (forall sr,
        In (CallSearch keyword max_results 30 (inr sr)) evs ->
        search_idlist sr = Some (PList []) ->
        status res = warning) /\
    (forall ids,
        In (CallDetails (PList (map PStr ids)) (inr [])) evs ->
        status res = warning) /\
    (forall p articles,
        In (CallDetails p (inr articles)) evs -> articles <> [] ->
        status res = success /\ details res = DArticles articles) /\
    (forall ev e,
        In ev evs -> failure_of ev = Some e ->
        res = mkResult error MSearchFailed (DText (str_exc e)) None).

(** ** batch_pubmed_fetch.py: the command line *)

(** [c.isspace()], for the characters with a code below 256: tab to
    carriage return, the four separators 28 to 31, the space, the next
    line control 133 and the no-break space 160. *)
Definition is_space (c : ascii) : bool :=
  let n := nat_of_ascii c in
  ((9 <=? n) && (n <=? 13) || (28 <=? n) && (n <=? 32)
   || (n =? 133) || (n =? 160))%nat.

(** [s.lstrip()] *)
Fixpoint lstrip (s : string) : string :=
  match s with
  | EmptyString => EmptyString
  | String c rest => if is_space c then lstrip rest else s
  end.

(** [s.rstrip()] *)
Fixpoint rstrip (s : string) : string :=
  match s with
  | EmptyString => EmptyString
  | String c rest =>
      match rstrip rest with
      | EmptyString => if is_space c then EmptyString else String c EmptyString
      | kept => String c kept
      end
  end.

(** [s.strip()] *)
Definition strip (s : string) : string := lstrip (rstrip s).

(** [s.split(',')]: the pieces between the commas, empty ones included;
    the empty string gives one empty piece. *)
Fixpoint split_comma (s : string) : list string :=
  match s with
  | EmptyString => [EmptyString]
  | String c rest =>
      if Ascii.eqb c ","%char then EmptyString :: split_comma rest
      else match split_comma rest with
           | piece :: pieces => String c piece :: pieces
           | [] => [String c EmptyString]
           end
  end.

(** What [parse_args] returned: [--max], [--days], [--pause] (integers,
    with their defaults filled in), [--custom] and [--key] ([None] when
    not given). *)
Record Args : Type := mkArgs {
  args_max : Z;
  args_days : Z;
  args_pause : Z;
  args_custom : option string;
  args_key : option string
}.

(** [if args.key:] and [if args.custom:]: [None] and the empty string
    are false. *)
Definition given (arg : option string) : bool :=
  match arg with
  | None => false
  | Some v => negb (v =? "")%string
  end.

(** The two lines the block prints itself. *)
Inductive Notice : Type :=
| NKeyFromCommandLine                (* using the key of the command line *)
| NCustomKeywords (n : Z).           (* using n custom keywords *)

(** The process of the script: the world, and the notices printed before
    the run starts. *)
Record Shell : Type := mkShell {
  shell_world : World;
  notices : list Notice
}.

Definition in_shell {A} (c : M World A) : M Shell A :=
  fun sh =>
    let '(w, r) := c (shell_world sh) in (mkShell w (notices sh), r).

Definition notice (n : Notice) : M Shell unit :=
  modify (fun sh => mkShell (shell_world sh) (notices sh ++ [n])%list).

(** [os.environ["NCBI_API_KEY"] = key]; the key is an argument of the
    command line, which holds no NUL character, so the assignment does
    not raise. *)
Definition set_api_key (key : string) (w : World) : World :=
  mkWorld (store w) (Some key) (trace w).

(** [keywords = [k.strip() for k in args.custom.split(',')]] *)
Definition custom_keywords (custom : string) : list string :=
  map strip (split_comma custom).

Section CommandLine.

Context (env : Env).

(** The block under [if __name__ == "__main__":], from the parsed
    arguments on (lines 175-192). *)
Definition main_block (args : Args) : M Shell Z :=
  (if given (args_key args) then
     match args_key args with
     | Some key =>
         in_shell (modify (set_api_key key)) ;;;
         notice NKeyFromCommandLine
     | None => ret tt
     end
   else ret tt) ;;;
  keywords <-
    (if given (args_custom args) then
       match args_custom args with
       | Some custom =>
           let keywords := custom_keywords custom in
           notice (NCustomKeywords (Z.of_nat (List.length keywords))) ;;;
           ret (Some keywords)
       | None => ret None
       end
     else ret None) ;;
  in_shell (batch_fetch_articles env keywords (args_max args) (args_days args)
              (args_pause args)).

End CommandLine.

(** The script from the parsed arguments on, as a computation over the
    world. *)
Definition main_run (env : Env) (args : Args) : M World Z :=
  fun w =>
    let '(sh, r) := main_block env args (mkShell w []) in
    (shell_world sh, r).


(** The key the run works with: the one of the command line if given,
    else the one of the environment. *)
Definition key_in_force (args : Args) (w : World) : option string :=
  if given (args_key args) then args_key args else api_key_env w.

(** The world the run starts in. *)
Definition world_for (args : Args) (w : World) : World :=
  mkWorld (store w) (key_in_force args w) (trace w).

(** The keywords argument the block passes to [batch_fetch_articles]. *)
Definition keywords_argument (args : Args) : option (list string) :=
  if given (args_custom args)
  then option_map custom_keywords (args_custom args) else None.

Fixpoint contains_char (c : ascii) (s : string) : bool :=
  match s with
  | EmptyString => false
  | String c' rest => Ascii.eqb c c' || contains_char c rest
  end.

Fixpoint count_char (c : ascii) (s : string) : nat :=
  match s with
  | EmptyString => 0%nat
  | String c' rest =>
      ((if Ascii.eqb c c' then 1 else 0) + count_char c rest)%nat
  end.

Fixpoint all_space (s : string) : bool :=
  match s with
  | EmptyString => true
  | String c rest => is_space c && all_space rest
  end.

Definition starts_with_space (s : string) : bool :=
  match s with
  | EmptyString => false
  | String c _ => is_space c
  end.

Fixpoint ends_with_space (s : string) : bool :=
  match s with
  | EmptyString => false
  | String c EmptyString => is_space c
  | String _ rest => ends_with_space rest
  end.

(** [keyword] is what is left of [piece] when the whitespace at its two
    ends is taken away: whitespace only around it, none at its ends. *)
Definition trimmed_of (piece keyword : string) : Prop :=
  (exists l r,
      piece = (l ++ keyword ++ r)%string /\
      all_space l = true /\ all_space r = true) /\
  starts_with_space keyword = false /\
  ends_with_space keyword = false.

(** ** More to observe in the probes *)

(** The calls [perform_test_search] makes and what its result tells: one
    search over 30 days, then at most one detail fetch, for the identifier
    list found; a malformed search result is an error that shows it; a
    success carries the records fetched and the identifiers asked for; a
    warning is either "no hits" without a detail fetch or "no details"
    after a detail fetch that returned nothing. *)
Definition test_search_calls_post (keyword : string) (max_results : Z)
    (w w' : World) (r : Res Result) : Prop :=
  exists evs res,
    r = inr res /\
    trace w' = (trace w ++ evs)%list /\
    ((exists answer, evs = [CallSearch keyword max_results 30 answer]) \/
     (exists sr p answer,
         evs = [CallSearch keyword max_results 30 (inr sr);
                CallDetails p answer] /\
         search_idlist sr = Some p /\ truthy p = true)) /\
    (forall sr,
        In (CallSearch keyword max_results 30 (inr sr)) evs ->
        truthy sr = false \/ contains "esearchresult" sr = inr false ->
        res = mkResult error MSearchInvalid (DRepr sr) None) /\
    (status res = success ->
     exists p articles,
       In (CallDetails p (inr articles)) evs /\ articles <> [] /\
       res = mkResult success (MFetched (len_rows articles))
               (DArticles articles) (Some p)) /\
    (status res = warning ->
     (res = mkResult warning MNoHits (DKeyword keyword) None /\
      exists answer, evs = [CallSearch keyword max_results 30 answer]) \/
     (exists p joined,
         In (CallDetails p (inr [])) evs /\
         join ", " p = inr joined /\
         res = mkResult warning MDetailsFailed (DPmids joined) None)).

(** ** More to observe in a batch run *)

Definition is_details (ev : Event) : bool :=
  match ev with CallDetails _ _ => true | _ => false end.

Definition is_read_csv (ev : Event) : bool :=
  match ev with ReadCsv _ => true | _ => false end.

(** No read of [papers.csv] among the events. *)
Definition no_read_csv (evs : list Event) : Prop :=
  forallb (fun ev => negb (is_read_csv ev)) evs = true.

(** The records handed to a merge that returned. *)
Definition merged_records (ev : Event) : Z :=
  match ev with
  | CallMerge articles (inr _) => len_rows articles
  | _ => 0
  end.

Fixpoint records_merged (evs : list Event) : Z :=
  match evs with
  | [] => 0
  | ev :: rest => merged_records ev + records_merged rest
  end.

(** Every detail fetch asks for the identifier list, taken for true by
    Python, of the search result returned by the call just before it, and
    every merge is given the non-empty record list returned by the detail
    fetch just before it.  [last] is the latest call so far. *)
Fixpoint calls_justified (last : option Event) (evs : list Event) : Prop :=
  match evs with
  | [] => True
  | ev :: rest =>
      match ev with
      | CallDetails p _ =>
          match last with
          | Some (CallSearch _ _ _ (inr sr)) =>
              search_idlist sr = Some p /\ truthy p = true
          | _ => False
          end
      | CallMerge articles _ =>
          match last with
          | Some (CallDetails _ (inr returned)) =>
              returned = articles /\ articles <> []
          | _ => False
          end
      | _ => True
      end /\
      calls_justified (if is_call ev then Some ev else last) rest
  end.

(** The number a line of the log adds to the count of new articles. *)
Definition tally (ev : Event) : Z :=
  match ev with
  | Print (LAddedNew n) | Print (LAdded n) => n
  | _ => 0
  end.

Fixpoint tallied (evs : list Event) : Z :=
  match evs with
  | [] => 0
  | ev :: rest => tally ev + tallied rest
  end.

(** The call that comes next. *)
Fixpoint next_call (evs : list Event) : option Event :=
  match evs with
  | [] => None
  | ev :: rest => if is_call ev then Some ev else next_call rest
  end.

(** No answer is left lying: a search that returned an identifier list
    with a length, taken for true by Python, is followed by the detail
    fetch for that list; a detail fetch that returned records is followed
    by the merge of these records; and a merge that returned is followed
    at once by the line that tells how many articles it added. *)
Fixpoint calls_followed_up (evs : list Event) : Prop :=
  match evs with
  | [] => True
  | ev :: rest =>
      match ev with
      | CallSearch _ _ _ (inr sr) =>
          forall p found,
            search_idlist sr = Some p -> truthy p = true ->
            len p = inr found ->
            exists answer, next_call rest = Some (CallDetails p answer)
      | CallDetails _ (inr articles) =>
          articles <> [] ->
          exists answer, next_call rest = Some (CallMerge articles answer)
      | CallMerge articles (inr updated_df) =>
          hd_error rest = Some (Print (LAdded (len_rows articles))) \/
          hd_error rest =
            Some (Print (LAddedNew (new_articles articles updated_df)))
      | _ => True
      end /\
      calls_followed_up rest
  end.

(** What the calls of one iteration look like, and what the iteration
    adds to the two totals. *)
Definition iteration_calls_post (f f' : Frame) (r : Res unit) : Prop :=
  exists evs,
    trace (world f') = (trace (world f) ++ evs)%list /\
    total_articles f' = total_articles f + records_merged evs /\
    total_new_articles f' = total_new_articles f + tallied evs /\
    (forall last, calls_justified last evs) /\
    calls_followed_up evs /\
    List.length (searched_keywords evs) = 1%nat /\
    (List.length (filter is_details evs) <= 1)%nat /\
    (List.length (filter is_merge evs) <=
     List.length (filter is_details evs))%nat /\
    no_read_csv evs.

Definition for_keywords_calls_post (f f' : Frame) (r : Res unit) : Prop :=
  exists evs,
    trace (world f') = (trace (world f) ++ evs)%list /\
    total_articles f' = total_articles f + records_merged evs /\
    total_new_articles f' = total_new_articles f + tallied evs /\
    (forall last, calls_justified last evs) /\
    calls_followed_up evs /\
    (List.length (filter is_details evs) <=
     List.length (searched_keywords evs))%nat /\
    (List.length (filter is_merge evs) <=
     List.length (filter is_details evs))%nat /\
    no_read_csv evs.

(** The line that closes the summary: the statistics of the table read,
    or the error of the read. *)
Definition summary_line (existing : option Rows) : Line :=
  match read_csv_answer existing with
  | inr rows => LStats rows
  | inl e => LStatsError (str_exc e)
  end.

(** The lines and the read that close a run that got through its loop:
    the totals, one read of [papers.csv], the summary of what the read
    gave. *)
Definition closing (evs : list Event) (final : option Rows) : list Event :=
  [Print (LDone (records_merged evs) (tallied evs));
   ReadCsv (read_csv_answer final);
   Print (summary_line final)].

(** How the calls of a run are arranged, and how the run ends: with its
    closing lines when it returns, where its loop stopped when it
    raises. *)
Definition batch_report_post (w w' : World) (r : Res Z) : Prop :=
  exists evs,
    calls_justified None evs /\
    calls_followed_up evs /\
    (List.length (filter is_details evs) <=
     List.length (searched_keywords evs))%nat /\
    (List.length (filter is_merge evs) <=
     List.length (filter is_details evs))%nat /\
    no_read_csv evs /\
    match r with
    | inr total_new =>
        total_new = tallied evs /\
        trace w' = (trace w ++ evs ++ closing evs (store w'))%list
    | inl _ => trace w' = (trace w ++ evs)%list
    end.










(** ** Sample environments *)

Definition sample_article (id : string) : Article :=
  mkArticle id "" "" "" "" "" "" "" "".

(** A search result of the expected shape carrying [ids]. *)
Definition idlist_result (ids : list string) : PyVal :=
  PDict [("esearchresult", PDict [("idlist", PList (map PStr ids))])].

(** An environment whose collaborators answer by their arguments alone and
    whose merges never fail. *)
Definition fixed_env (search : string -> Res PyVal) (fetch : PyVal -> Res Rows)
    (http : Res Response) : Env :=
  mkEnv (fun keyword _ _ _ => search keyword)
        (fun pmid_list _ => fetch pmid_list)
        (fun _ _ => None)
        (fun _ _ => http).

Definition no_response : Res Response :=
  inl (mkExc ConnectionError "connection refused").

Definition empty_world : World := mkWorld None None [].

(** A store of one row, no key in the environment. *)
Definition world_one_row : World :=
  mkWorld (Some [sample_article "1"]) None [].

(** No store yet, a key in the environment. *)
Definition world_with_key : World := mkWorld None (Some "secret") [].

(** Every search finds the one article "2", and the detail fetch returns
    its record. *)
Definition env_one_new : Env :=
  fixed_env (fun _ => inr (idlist_result ["2"]))
            (fun _ => inr [sample_article "2"])
            no_response.

(** Every search answers in the expected shape and finds nothing. *)
Definition env_no_hits : Env :=
  fixed_env (fun _ => inr (idlist_result []))
            (fun _ => inr [])
            no_response.

(** Every search finds the article "1", whose details cannot be had. *)
Definition env_lost_details : Env :=
  fixed_env (fun _ => inr (idlist_result ["1"]))
            (fun _ => inr [])
            no_response.

(** The search itself fails. *)
Definition env_search_down : Env :=
  fixed_env (fun _ => inl (mkExc ConnectionError "connection refused"))
            (fun _ => inr [])
            no_response.

(** The records of the identifiers asked for. *)
Definition records_of (pmid_list : PyVal) : Rows :=
  match pmid_list with
  | PList l =>
      flat_map (fun v => match v with
                         | PStr id => [sample_article id]
                         | _ => []
                         end) l
  | _ => []
  end.

(** The scenario of the spec: the term "a" finds the articles "1" and
    "2", the term "b" finds "1" again. *)
Definition env_two_terms : Env :=
  fixed_env (fun keyword =>
               if (keyword =? "a")%string then inr (idlist_result ["1"; "2"])
               else inr (idlist_result ["1"]))
            (fun pmid_list => inr (records_of pmid_list))
            no_response.

(** The detail fetch returns the record "1" twice. *)
Definition env_repeated_record : Env :=
  fixed_env (fun _ => inr (idlist_result ["1"]))
            (fun _ => inr [sample_article "1"; sample_article "1"])
            no_response.

(** The double quote, to write JSON text. *)
Definition dq : string := String (ascii_of_nat 34) EmptyString.

(** The info endpoint answers 200 with the body
    [{"einforesult": null}]. *)
Definition env_null_info : Env :=
  fixed_env (fun _ => inr PNone) (fun _ => inr [])
    (inr (mkResponse 200 ("{" ++ dq ++ "einforesult" ++ dq ++ ": null}")
            (inr (PDict [("einforesult", PNone)])))).

(** The info endpoint answers 200 with the body [null]. *)
Definition env_null_body : Env :=
  fixed_env (fun _ => inr PNone) (fun _ => inr [])
    (inr (mkResponse 200 "null" (inr PNone))).

(** The info endpoint answers 200 with the body
    [{"einforesult": {}}]. *)
Definition env_info_no_version : Env :=
  fixed_env (fun _ => inr PNone) (fun _ => inr [])
    (inr (mkResponse 200 ("{" ++ dq ++ "einforesult" ++ dq ++ ": {}}")
            (inr (PDict [("einforesult", PDict [])])))).

(** The info endpoint answers 200 with the body [{}]. *)
Definition env_empty_object : Env :=
  fixed_env (fun _ => inr PNone) (fun _ => inr [])
    (inr (mkResponse 200 "{}" (inr (PDict [])))).

(** The info endpoint answers 200 with a page that is not JSON; the
    decode error is the one of [requests]. *)
Definition env_not_json : Env :=
  fixed_env (fun _ => inr PNone) (fun _ => inr [])
    (inr (mkResponse 200 "<html>"
            (inl (mkExc RequestsJSONDecodeError "Expecting value")))).

(** The same page, the decode error being the one of [json] alone. *)
Definition env_not_json_plain : Env :=
  fixed_env (fun _ => inr PNone) (fun _ => inr [])
    (inr (mkResponse 200 "<html>"
            (inl (mkExc JSONDecodeError "Expecting value")))).

(** The command line [--pause 7 --custom " a , b" --key k]. *)
Definition args_custom_and_key : Args :=
  mkArgs 30 365 7 (Some " a , b") (Some "k").

(** The command line without options. *)
Definition args_default : Args := mkArgs 30 365 3 None None.


(** ** The store merger: properties *)

Section Merger.

Lemma existsb_eqb_In (x : string) (seen : list string) :
  existsb (String.eqb x) seen = true <-> In x seen.
Proof.
  rewrite existsb_exists. split.
  - intros [y [Hy Heq]]. apply String.eqb_eq in Heq. now subst.
  - intros H. exists x. split; [assumption | apply String.eqb_refl].
Qed.

Lemma drop_duplicates_from_fresh (rows : Rows) :
  forall seen x,
    In x (ids (drop_duplicates_from seen rows)) -> ~ In x seen.
Proof.
  induction rows as [|a rest IH]; intros seen x; simpl.
  - intros [].
  - destruct (existsb (String.eqb (pmid a)) seen) eqn:Hseen.
    + apply IH.
    + simpl. intros [Hx | Hx].
      * subst x. intros Hin. apply existsb_eqb_In in Hin. congruence.
      * intros Hin. apply (IH _ _ Hx). now right.
Qed.

Lemma drop_duplicates_from_NoDup (rows : Rows) :
  forall seen, NoDup (ids (drop_duplicates_from seen rows)).
Proof.
  induction rows as [|a rest IH]; intros seen; simpl.
  - constructor.
  - destruct (existsb (String.eqb (pmid a)) seen).
    + apply IH.
    + simpl. constructor; [|apply IH].
      intros Hin. apply drop_duplicates_from_fresh in Hin.
      apply Hin. now left.
Qed.

Lemma merge_rows_NoDup (existing : option Rows) (new_records : Rows) :
  NoDup (ids (merge_rows existing new_records)).
Proof.
  destruct existing; apply drop_duplicates_from_NoDup.
Qed.

Lemma merge_history_NoDup (batches : list Rows) :
  forall existing,
    Forall (fun rows => NoDup (ids rows)) (merge_history existing batches).
Proof.
  induction batches as [|b rest IH]; intros existing; simpl.
  - constructor.
  - constructor; [apply merge_rows_NoDup | apply IH].
Qed.

(** Rows whose identifiers are new and pairwise different all pass the
    filter, and what follows them is filtered with their identifiers
    seen. *)
Lemma drop_duplicates_from_app (old : Rows) :
  forall (seen : list string) (new_records : Rows),
    NoDup (ids old) ->
    (forall x, In x (ids old) -> ~ In x seen) ->
    drop_duplicates_from seen (old ++ new_records)%list =
    (old ++ drop_duplicates_from (rev (ids old) ++ seen) new_records)%list.
Proof.
  induction old as [|a rest IH]; intros seen new_records Hnd Hfresh.
  - reflexivity.
  - cbn [app drop_duplicates_from ids map].
    inversion Hnd as [|x l Hx Hl]; subst.
    destruct (existsb (String.eqb (pmid a)) seen) eqn:Hseen.
    + apply existsb_eqb_In in Hseen. exfalso.
      apply (Hfresh (pmid a)); [now left | assumption].
    + rewrite IH; [|assumption|].
      * cbn [rev]. now rewrite <- app_assoc.
      * intros y Hy [Hin|Hin]; [subst y; contradiction|].
        apply (Hfresh y); [now right | assumption].
Qed.

Lemma drop_duplicates_from_seen (rows : Rows) :
  forall seen,
    (forall x, In x (ids rows) -> In x seen) ->
    drop_duplicates_from seen rows = [].
Proof.
  induction rows as [|a rest IH]; intros seen Hall; [reflexivity|].
  cbn [drop_duplicates_from].
  destruct (existsb (String.eqb (pmid a)) seen) eqn:Hseen.
  - apply IH. intros x Hx. apply Hall. now right.
  - assert (In (pmid a) seen) as Hin by (apply Hall; now left).
    apply existsb_eqb_In in Hin. congruence.
Qed.

(** The existing rows come first and unchanged: ties go to the store. *)
Lemma merge_rows_keeps_existing (old new_records : Rows) :
  NoDup (ids old) ->
  merge_rows (Some old) new_records =
  (old ++ drop_duplicates_from (rev (ids old)) new_records)%list.
Proof.
  intros Hnd. unfold merge_rows, drop_duplicates.
  rewrite drop_duplicates_from_app; [|assumption|intros x _ []].
  now rewrite app_nil_r.
Qed.

(** An empty batch changes nothing. *)
Lemma merge_rows_empty_batch (old : Rows) :
  NoDup (ids old) -> merge_rows (Some old) [] = old.
Proof.
  intros Hnd. rewrite merge_rows_keeps_existing by assumption.
  apply app_nil_r.
Qed.

(** Neither does a batch of identifiers that are all in the store. *)
Lemma merge_rows_known_batch (old new_records : Rows) :
  NoDup (ids old) ->
  (forall x, In x (ids new_records) -> In x (ids old)) ->
  merge_rows (Some old) new_records = old.
Proof.
  intros Hnd Hall. rewrite merge_rows_keeps_existing by assumption.
  rewrite drop_duplicates_from_seen; [apply app_nil_r|].
  intros x Hx. apply in_rev. rewrite rev_involutive. auto.
Qed.

(** A batch of [K] new, pairwise different identifiers makes a store of
    [N] rows one of [N + K]. *)
Lemma merge_rows_fresh_batch (old new_records : Rows) :
  NoDup (ids old) -> NoDup (ids new_records) ->
  (forall x, In x (ids new_records) -> ~ In x (ids old)) ->
  merge_rows (Some old) new_records = (old ++ new_records)%list.
Proof.
  intros Hold Hnew Hfresh. rewrite merge_rows_keeps_existing by assumption.
  f_equal.
  pose proof (drop_duplicates_from_app new_records (rev (ids old)) [] Hnew)
    as H.
  rewrite !app_nil_r in H. apply H.
  intros x Hx Hin. apply in_rev in Hin. exact (Hfresh x Hx Hin).
Qed.

(** On such a batch line 117 computes [K - N], where the store grew by
    [K]. *)
Lemma new_articles_on_fresh_batch (old new_records : Rows) :
  NoDup (ids old) -> NoDup (ids new_records) ->
  (forall x, In x (ids new_records) -> ~ In x (ids old)) ->
  new_articles new_records (merge_rows (Some old) new_records) =
    len_rows new_records - len_rows old /\
  len_rows (merge_rows (Some old) new_records) - len_rows old =
    len_rows new_records.
Proof.
  intros Hold Hnew Hfresh.
  rewrite merge_rows_fresh_batch by assumption.
  unfold new_articles, len_rows. rewrite length_app. lia.
Qed.

(** What a call of [update_papers_csv] that returns has done. *)
Lemma update_papers_csv_returns (env : Env) (articles : Rows) (w w' : World)
    (updated_df : Rows) :
  update_papers_csv env articles w = (w', inr updated_df) ->
  updated_df = merge_rows (store w) articles /\
  store w' = Some updated_df.
Proof.
  unfold update_papers_csv, bind, gets, modify, emit, ret, raise.
  destruct (merge_fault env articles w); simpl; intros H; inversion H.
  split; reflexivity.
Qed.

(** A call that raises leaves the file as it was. *)
Lemma update_papers_csv_raises (env : Env) (articles : Rows) (w w' : World)
    (e : Exc) :
  update_papers_csv env articles w = (w', inl e) -> store w' = store w.
Proof.
  unfold update_papers_csv, bind, gets, modify, emit, ret, raise.
  destruct (merge_fault env articles w); simpl; intros H; inversion H.
  reflexivity.
Qed.

(** (C1) After every merge the persisted store holds no identifier twice:
    every call of [update_papers_csv] that returns leaves a file whose
    rows, which are the rows it returns, have pairwise different
    identifiers, whatever the file held before and whatever the batch
    (repeats inside the batch or against the file included); and so does
    every store along every sequence of merges. *)
Theorem merge_keeps_identifiers_unique :
  (forall (env : Env) (articles : Rows) (w w' : World) (updated_df : Rows),
      update_papers_csv env articles w = (w', inr updated_df) ->
      store w' = Some updated_df /\ NoDup (ids updated_df)) /\
  (forall (existing : option Rows) (batches : list Rows),
      Forall (fun rows => NoDup (ids rows)) (merge_history existing batches)).
Proof.
  split.
  - intros env articles w w' updated_df H.
    apply update_papers_csv_returns in H. destruct H as [Hu Hs].
    split; [assumption|]. subst updated_df. apply merge_rows_NoDup.
  - intros existing batches. apply merge_history_NoDup.
Qed.

End Merger.

(** ** Reasoning rules for the monad *)

Section Rules.

Context {S : Type}.

Lemma wp_ret {A} (a : A) (s : S) (Q : S -> Res A -> Prop) :
  Q s (inr a) -> wp (ret a) s Q.
Proof. exact (fun H => H). Qed.

Lemma wp_raise {A} (e : Exc) (s : S) (Q : S -> Res A -> Prop) :
  Q s (inl e) -> wp (raise e) s Q.
Proof. exact (fun H => H). Qed.

Lemma wp_eval {A} (r : Res A) (s : S) (Q : S -> Res A -> Prop) :
  Q s r -> wp (eval r) s Q.
Proof. exact (fun H => H). Qed.

Lemma wp_gets {A} (g : S -> A) (s : S) (Q : S -> Res A -> Prop) :
  Q s (inr (g s)) -> wp (gets g) s Q.
Proof. exact (fun H => H). Qed.

Lemma wp_modify (g : S -> S) (s : S) (Q : S -> Res unit -> Prop) :
  Q (g s) (inr tt) -> wp (modify g) s Q.
Proof. exact (fun H => H). Qed.

Lemma wp_bind {A B} (c : M S A) (k : A -> M S B) (s : S)
    (Q : S -> Res B -> Prop) :
  wp c s (fun s' r =>
            match r with
            | inl e => Q s' (inl e)
            | inr a => wp (k a) s' Q
            end) ->
  wp (bind c k) s Q.
Proof.
  unfold wp, bind. destruct (c s) as [s' [e|a]]; simpl; auto.
Qed.

Lemma isinstance_Exception (e : Exc) : isinstance Exception e = true.
Proof. destruct e as [[] msg]; reflexivity. Qed.

(** [try: body  except Exception as e: h] *)
Lemma wp_try_except_Exception {A} (body : M S A) (h : Exc -> M S A) (s : S)
    (Q : S -> Res A -> Prop) :
  wp body s (fun s' r =>
               match r with
               | inl e => wp (h e) s' Q
               | inr a => Q s' (inr a)
               end) ->
  wp (try_except body [(Exception, h)]) s Q.
Proof.
  unfold wp, try_except. destruct (body s) as [s' [e|a]]; simpl; auto.
  now rewrite isinstance_Exception.
Qed.

Lemma wp_weaken {A} (c : M S A) (s : S) (Q Q' : S -> Res A -> Prop) :
  wp c s Q -> (forall s' r, Q s' r -> Q' s' r) -> wp c s Q'.
Proof. unfold wp. auto. Qed.

End Rules.

Section OperationRules.

Context (env : Env).

Lemma wp_in_world {A} (c : M World A) (f : Frame)
    (Q : Frame -> Res A -> Prop) :
  wp c (world f)
    (fun w r => Q (mkFrame w (total_articles f) (total_new_articles f)) r) ->
  wp (in_world c) f Q.
Proof.
  unfold wp, in_world. destruct (c (world f)) as [w r]. exact (fun H => H).
Qed.

Lemma wp_print (l : Line) (w : World) (Q : World -> Res unit -> Prop) :
  Q (emit_ev (Print l) w) (inr tt) -> wp (print l) w Q.
Proof. exact (fun H => H). Qed.

Lemma wp_sleep (secs : Z) (w : World) (Q : World -> Res unit -> Prop) :
  Q (emit_ev (CallSleep secs) w) (sleep_answer secs) -> wp (sleep secs) w Q.
Proof. exact (fun H => H). Qed.

Lemma wp_fetch_pubmed_studies (keyword : string) (m d : Z) (w : World)
    (Q : World -> Res PyVal -> Prop) :
  (forall answer, Q (emit_ev (CallSearch keyword m d answer) w) answer) ->
  wp (fetch_pubmed_studies env keyword m d) w Q.
Proof.
  intros H. unfold wp, fetch_pubmed_studies, bind, gets, emit, modify, eval.
  simpl. apply H.
Qed.

Lemma wp_get_pubmed_article_details (p : PyVal) (w : World)
    (Q : World -> Res Rows -> Prop) :
  (forall answer, Q (emit_ev (CallDetails p answer) w) answer) ->
  wp (get_pubmed_article_details env p) w Q.
Proof.
  intros H.
  unfold wp, get_pubmed_article_details, bind, gets, emit, modify, eval.
  simpl. apply H.
Qed.

Lemma wp_update_papers_csv (articles : Rows) (w : World)
    (Q : World -> Res Rows -> Prop) :
  (forall e, Q (emit_ev (CallMerge articles (inl e)) w) (inl e)) ->
  (let updated_df := merge_rows (store w) articles in
   Q (emit_ev (CallMerge articles (inr updated_df)) (set_store updated_df w))
     (inr updated_df)) ->
  wp (update_papers_csv env articles) w Q.
Proof.
  intros Hfail Hok.
  unfold wp, update_papers_csv, bind, gets, emit, modify, ret, raise.
  destruct (merge_fault env articles w); simpl; [apply Hfail | apply Hok].
Qed.

Lemma wp_os_path_exists_papers (w : World) (Q : World -> Res bool -> Prop) :
  Q w (inr (match store w with Some _ => true | None => false end)) ->
  wp os_path_exists_papers w Q.
Proof. exact (fun H => H). Qed.

Lemma wp_read_csv_papers (w : World) (Q : World -> Res Rows -> Prop) :
  Q (emit_ev (ReadCsv (read_csv_answer (store w))) w)
    (read_csv_answer (store w)) ->
  wp read_csv_papers w Q.
Proof. exact (fun H => H). Qed.

End OperationRules.

(** ** The batch run: properties *)

Ltac wp_simpl :=
  cbn beta iota delta [world total_articles total_new_articles].

Ltac wp_step :=
  lazymatch goal with
  | |- wp (bind _ _) _ _ => apply wp_bind
  | |- wp (ret _) _ _ => apply wp_ret
  | |- wp (raise _) _ _ => apply wp_raise
  | |- wp (eval _) _ _ => apply wp_eval
  | |- wp (gets _) _ _ => apply wp_gets
  | |- wp (modify _) _ _ => apply wp_modify
  | |- wp (in_world _) _ _ => apply wp_in_world
  | |- wp (print _) _ _ => apply wp_print
  | |- wp (sleep _) _ _ => apply wp_sleep
  | |- wp (fetch_pubmed_studies _ _ _ _) _ _ =>
      apply wp_fetch_pubmed_studies; intros [?e|?search_results]
  | |- wp (get_pubmed_article_details _ _) _ _ =>
      apply wp_get_pubmed_article_details; intros [?e|?articles]
  | |- wp (update_papers_csv _ _) _ _ =>
      apply wp_update_papers_csv; [intros ?e | intros ?updated_df]
  | |- wp os_path_exists_papers _ _ => apply wp_os_path_exists_papers
  | |- wp read_csv_papers _ _ => apply wp_read_csv_papers
  | |- wp environ_get_api_key _ _ =>
      unfold environ_get_api_key; apply wp_gets
  | |- wp (add_total_articles _) _ _ =>
      unfold add_total_articles; apply wp_modify
  | |- wp (add_total_new_articles _) _ _ =>
      unfold add_total_new_articles; apply wp_modify
  | |- wp (try_except _ [(Exception, _)]) _ _ =>
      apply wp_try_except_Exception
  | |- wp (if ?b then _ else _) _ _ => destruct b eqn:?
  | |- match ?x with inl _ => _ | inr _ => _ end => destruct x eqn:?
  end; wp_simpl.

Ltac wp_run := repeat wp_step.

Ltac trace_simpl :=
  cbn [trace emit_ev set_store store api_key_env world total_articles
       total_new_articles];
  rewrite <- ?app_assoc; cbn [app].

Ltac in_cases H :=
  simpl in H; repeat (destruct H as [H|H]); try contradiction;
  try discriminate.

(** Rewrites with the comparisons recorded along a path. *)
Ltac use_tests :=
  repeat match goal with H : (_ <? _) = _ |- _ => rewrite H end.

Section BatchProperties.

Context (env : Env).

Lemma skipn_length_app {A} (l evs : list A) :
  skipn (List.length l) (l ++ evs) = evs.
Proof. induction l as [|x l IH]; [reflexivity | exact IH]. Qed.

Lemma getitem_idlist (r es p : PyVal) :
  getitem r "esearchresult" = inr es ->
  getitem es "idlist" = inr p ->
  search_idlist r = Some p.
Proof.
  destruct r; simpl; try discriminate.
  destruct (lookup "esearchresult" d) as [x|]; [|discriminate].
  intros H; injection H as ->.
  destruct es; simpl; try discriminate.
  destruct (lookup "idlist" d0); [|discriminate].
  intros H; injection H as ->. reflexivity.
Qed.

(** A search result of the expected shape passes the test of line 97 and
    gives its identifier list at line 98. *)
Lemma search_idlist_shape (r p : PyVal) :
  search_idlist r = Some p ->
  exists es,
    has_idlist r = inr true /\
    getitem r "esearchresult" = inr es /\
    getitem es "idlist" = inr p.
Proof.
  destruct r; simpl; try discriminate.
  unfold has_idlist. simpl.
  destruct (lookup "esearchresult" d) as [[| | | | |d']|]; try discriminate.
  intros H. exists (PDict d'). simpl. rewrite H. repeat split; reflexivity.
Qed.

Lemma iteration_runs (n pause m d i : Z) (keyword : string) (f : Frame) :
  wp (iteration env n pause m d i keyword) f
    (iteration_post n pause m d i keyword f).
Proof.
  unfold iteration, try_keyword. wp_run.
  all: split; [unfold pause_answer; use_tests; reflexivity|].
  all: eexists; split; [trace_simpl; reflexivity|]; trace_simpl.
  all: split; [reflexivity|].
  all: split; [use_tests; reflexivity|].
  all: split; [cbn; auto 12|].
  all: unfold untouched, no_merge; trace_simpl.
  all: try solve [repeat split; intros; try reflexivity;
                  match goal with H : In _ _ |- _ => in_cases H end].
  all: pose proof (getitem_idlist _ _ _ Heqr0 Heqr1) as Hid.
  all: split;
    [intros ev e0 Hin Hf;
     first [solve [repeat split; reflexivity]
           | in_cases Hin; subst ev; discriminate Hf]|].
  all: split;
    [intros p1 Hin; exfalso; in_cases Hin;
     injection Hin as _ Hnil; subst articles; discriminate|].
  all: split;
    [intros k' m' d' r0 Hin Hor; exfalso; in_cases Hin;
     injection Hin as _ _ _ Hr; subst r0;
     destruct Hor as [Hn | [p1 [Hs Ht]]]; congruence|].
  all: split; [|intros Hnm; cbn in Hnm; discriminate Hnm].
  all: intros a u Hin; in_cases Hin.
  all: injection Hin as Ha Hu; subst a u.
  all: match goal with
       | H : match store _ with Some _ => true | None => false end = _ |- _ =>
           cbn [store emit_ev] in H
       end.
  all: subst updated_df; cbn [store emit_ev].
  all: destruct (store (world f)); try discriminate.
  all: repeat split; reflexivity.
Qed.

Lemma beats_app (evs1 evs2 : list Event) :
  beats (evs1 ++ evs2) = (beats evs1 ++ beats evs2)%list.
Proof. apply flat_map_app. Qed.

Lemma failures_logged_app (evs1 evs2 : list Event) :
  failures_logged evs1 -> failures_logged evs2 ->
  failures_logged (evs1 ++ evs2).
Proof.
  induction evs1 as [|ev rest IH]; simpl; [auto|].
  intros [Hev Hrest] H2. split; [|auto].
  destruct (failure_of ev); [|exact I].
  destruct rest; simpl in *; [discriminate | assumption].
Qed.

Lemma no_merge_app (evs1 evs2 : list Event) :
  no_merge (evs1 ++ evs2) <-> no_merge evs1 /\ no_merge evs2.
Proof. unfold no_merge. rewrite forallb_app. apply andb_true_iff. Qed.

Lemma untouched_trans (f1 f2 f3 : Frame) :
  untouched f1 f2 -> untouched f2 f3 -> untouched f1 f3.
Proof.
  unfold untouched. intros (H1 & H2 & H3) (H4 & H5 & H6).
  repeat split; congruence.
Qed.

(** [time.sleep] takes the pauses from 0 to [sleep_max]. *)
Lemma sleep_answer_returns (pause : Z) :
  sleep_answer pause = inr tt <-> 0 <= pause <= sleep_max.
Proof.
  unfold sleep_answer.
  destruct (Z.ltb_spec pause 0); [split; [discriminate | lia]|].
  destruct (Z.ltb_spec sleep_max pause); [split; [discriminate | lia]|].
  split; [lia | reflexivity].
Qed.

(** A loop whose pauses return goes through all its keywords. *)
Lemma pauses_return_loop (pause m d : Z) (keywords : list string) :
  pauses_return pause keywords ->
  loop_answer pause keywords = inr tt /\
  loop_beats pause m d keywords = expected_beats pause m d keywords.
Proof.
  intros H. unfold loop_beats.
  assert (Ha : loop_answer pause keywords = inr tt).
  { destruct keywords as [|k1 [|k2 rest]]; try reflexivity.
    destruct H as [H|H]; [cbn [List.length] in H; lia|].
    now apply sleep_answer_returns. }
  rewrite Ha. auto.
Qed.

Lemma for_keywords_runs (n pause m d : Z) (keywords : list string) :
  forall (i : Z) (f : Frame),
    n = i + Z.of_nat (List.length keywords) ->
    wp (for_keywords env n pause m d i keywords) f
      (for_keywords_post pause m d keywords f).
Proof.
  induction keywords as [|keyword rest IH]; intros i f Hn.
  - apply wp_ret. split; [reflexivity|]. exists [].
    rewrite app_nil_r. repeat split; reflexivity.
  - cbn [for_keywords]. apply wp_bind.
    eapply wp_weaken; [apply iteration_runs|].
    intros f1 r1 (-> & evs1 & T1 & K1 & B1 & L1 & _ & _ & _ & _ & U1).
    unfold pause_answer in *. cbn [List.length] in Hn.
    destruct rest as [|k2 rest'].
    + replace (i <? n - 1) with false in *
        by (symmetry; apply Z.ltb_ge; cbn in Hn; lia).
      apply wp_ret. split; [reflexivity|]. exists evs1. auto.
    + replace (i <? n - 1) with true in *
        by (symmetry; apply Z.ltb_lt; cbn [List.length] in Hn; lia).
      destruct (sleep_answer pause) as [e|[]] eqn:Hs.
      * split; [cbn [loop_answer]; now rewrite Hs|]. exists evs1.
        unfold loop_beats. cbn [loop_answer]. rewrite Hs. auto.
      * eapply wp_weaken; [apply (IH (i + 1)); lia|].
        assert (Hp : pauses_return pause (k2 :: rest'))
          by (right; now apply sleep_answer_returns).
        destruct (pauses_return_loop pause m d _ Hp) as [Ha Hb].
        intros f2 r2 (-> & evs2 & T2 & K2 & B2 & L2 & U2).
        split; [rewrite Ha; cbn [loop_answer]; now rewrite Hs|].
        exists (evs1 ++ evs2)%list.
        split; [rewrite T2, T1; symmetry; apply app_assoc|].
        split; [congruence|].
        split.
        { rewrite beats_app, B1, B2, Hb. unfold loop_beats.
          cbn [loop_answer]. rewrite Hs. reflexivity. }
        split; [now apply failures_logged_app|].
        intros Hnm. apply no_merge_app in Hnm. destruct Hnm as [Hn1 Hn2].
        eapply untouched_trans; eauto.
Qed.

Lemma wp_batch_fetch_articles (keywords : option (list string))
    (m d pause_seconds : Z) (w : World) (Q : World -> Res Z -> Prop) :
  wp (batch_fetch_articles_frame env keywords m d pause_seconds)
    (mkFrame w 0 0) (fun f r => Q (world f) r) ->
  wp (batch_fetch_articles env keywords m d pause_seconds) w Q.
Proof.
  unfold wp, batch_fetch_articles.
  destruct (batch_fetch_articles_frame env keywords m d pause_seconds
              (mkFrame w 0 0)) as [f r].
  exact (fun H => H).
Qed.

Lemma batch_fetch_articles_runs (keywords : option (list string))
    (m d pause_seconds : Z) (w : World) :
  wp (batch_fetch_articles env keywords m d pause_seconds) w
    (batch_post
       (match keywords with None => ORTHO_KEYWORDS | Some l => l end)
       m d pause_seconds w).
Proof.
  apply wp_batch_fetch_articles. unfold batch_fetch_articles_frame.
  set (kws := match keywords with None => ORTHO_KEYWORDS | Some l => l end).
  wp_run.
  all: (eapply wp_weaken; [apply for_keywords_runs; lia|]).
  all: intros f2 r2 (-> & evs & T & K & B & L & U); wp_simpl.
  all: unfold print_statistics; wp_run.
  all: cbn [world trace emit_ev api_key_env store total_articles
            total_new_articles] in T, K, U.
  all: rewrite <- ?app_assoc in T; cbn [app] in T.
  all: unfold batch_post; cbn [world api_key_env].
  all: match goal with H : loop_answer _ _ = _ |- _ => rewrite H end.
  all: match type of T with
       | _ = (_ ++ ?pre)%list =>
           match goal with
           | |- context [emit_ev ?c (emit_ev ?b (emit_ev ?a (world _)))] =>
               exists (pre ++ [a; b; c])%list
           | |- _ => exists pre
           end
       end.
  all: split;
    [cbn [trace emit_ev]; rewrite T; rewrite <- ?app_assoc; reflexivity|].
  all: split; [exact K|].
  all: split;
    [rewrite ?beats_app; cbn [beats flat_map beat app];
     rewrite ?app_nil_r; exact B|].
  all: split;
    [try apply failures_logged_app; cbn [failures_logged failure_of];
     auto 6|].
  all: split;
    [intros Hnm; try (apply no_merge_app in Hnm; destruct Hnm as [Hnm _]);
     unfold no_merge in Hnm; cbn [forallb is_merge negb andb] in Hnm;
     destruct (U Hnm) as (Hs & _ & Ht);
     cbn [store emit_ev world total_new_articles] in *; exact Hs|].
  all: try reflexivity.
  all: eexists; split; [reflexivity|].
  all: intros Hnm; apply no_merge_app in Hnm; destruct Hnm as [Hnm _].
  all: unfold no_merge in Hnm; cbn [forallb is_merge negb andb] in Hnm.
  all: destruct (U Hnm) as (_ & _ & Ht).
  all: cbn [total_new_articles] in Ht; exact Ht.
Qed.

End BatchProperties.

(** ** The batch run: calls, totals and log *)

Section BatchCalls.

Context (env : Env).

Lemma rows_truthy_nonempty (rows : Rows) :
  rows_truthy rows = true -> rows <> [].
Proof. destruct rows; [discriminate | intros _ H; discriminate H]. Qed.

Lemma rows_falsy_empty (rows : Rows) :
  rows_truthy rows = false -> rows = [].
Proof. destruct rows; [reflexivity | discriminate]. Qed.

Lemma iteration_calls (n pause m d i : Z) (keyword : string) (f : Frame) :
  wp (iteration env n pause m d i keyword) f (iteration_calls_post f).
Proof.
  unfold iteration, try_keyword. wp_run.
  all: eexists; split; [trace_simpl; reflexivity|]; trace_simpl.
  all: split; [cbn [records_merged merged_records]; lia|].
  all: split; [cbn [tallied tally]; lia|].
  all: try match goal with
           | H1 : getitem ?r "esearchresult" = inr ?es,
             H2 : getitem ?es "idlist" = inr ?p |- _ =>
               pose proof (getitem_idlist _ _ _ H1 H2)
           end.
  all: try match goal with
           | H : rows_truthy _ = true |- _ =>
               pose proof (rows_truthy_nonempty _ H)
           end.
  all: try match goal with
           | H : rows_truthy _ = false |- _ =>
               apply rows_falsy_empty in H
           end.
  all: split; [intros last; cbn; auto 20|].
  all: split;
    [cbn [calls_followed_up next_call is_call hd_error];
     repeat split; auto;
     try (intros p0 found Hs Ht Hl;
          apply search_idlist_shape in Hs;
          destruct Hs as (es0 & Hs1 & Hs2 & Hs3));
     try solve [congruence | eexists; repeat f_equal; congruence]|].
  all: split; [reflexivity|].
  all: split; [cbn; lia|]; split; [cbn; lia | reflexivity].
Qed.

Lemma records_merged_app (evs1 evs2 : list Event) :
  records_merged (evs1 ++ evs2) = records_merged evs1 + records_merged evs2.
Proof.
  induction evs1 as [|ev rest IH]; [reflexivity|].
  cbn [app records_merged]. rewrite IH. lia.
Qed.

Lemma tallied_app (evs1 evs2 : list Event) :
  tallied (evs1 ++ evs2) = tallied evs1 + tallied evs2.
Proof.
  induction evs1 as [|ev rest IH]; [reflexivity|].
  cbn [app tallied]. rewrite IH. lia.
Qed.

Lemma searched_keywords_app (evs1 evs2 : list Event) :
  searched_keywords (evs1 ++ evs2) =
  (searched_keywords evs1 ++ searched_keywords evs2)%list.
Proof. apply flat_map_app. Qed.

(** A stretch of events that is justified whatever came before can follow
    any justified stretch. *)
Lemma calls_justified_app (evs1 evs2 : list Event) :
  forall last,
    calls_justified last evs1 ->
    (forall last', calls_justified last' evs2) ->
    calls_justified last (evs1 ++ evs2).
Proof.
  induction evs1 as [|ev rest IH]; intros last H1 H2; [apply H2|].
  cbn [app calls_justified] in *. destruct H1 as [Hev Hrest].
  split; [exact Hev | now apply IH].
Qed.

Lemma next_call_app (evs more : list Event) (c : Event) :
  next_call evs = Some c -> next_call (evs ++ more) = Some c.
Proof.
  induction evs as [|ev rest IH]; [discriminate|].
  cbn [app next_call]. destruct (is_call ev); auto.
Qed.

Lemma hd_error_app (evs more : list Event) (ev : Event) :
  hd_error evs = Some ev -> hd_error (evs ++ more) = Some ev.
Proof. destruct evs; [discriminate | exact (fun H => H)]. Qed.

(** What follows a stretch of events does not undo the follow-ups found
    in it. *)
Lemma calls_followed_up_app (evs1 evs2 : list Event) :
  calls_followed_up evs1 -> calls_followed_up evs2 ->
  calls_followed_up (evs1 ++ evs2).
Proof.
  induction evs1 as [|ev rest IH]; intros H1 H2; [exact H2|].
  cbn [app calls_followed_up] in *. destruct H1 as [Hev Hrest].
  split; [|now apply IH].
  destruct ev as [k m d [e|sr]|p [e|articles]|a [e|u]| | | |]; try exact I.
  - intros p found Hs Ht Hl. destruct (Hev p found Hs Ht Hl) as [answer Hn].
    exists answer. now apply next_call_app.
  - intros Ha. destruct (Hev Ha) as [answer Hn].
    exists answer. now apply next_call_app.
  - destruct Hev as [Hev|Hev]; [left | right]; now apply hd_error_app.
Qed.

Lemma for_keywords_calls (n pause m d : Z) (keywords : list string) :
  forall (i : Z) (f : Frame),
    wp (for_keywords env n pause m d i keywords) f
      (for_keywords_calls_post f).
Proof.
  induction keywords as [|keyword rest IH]; intros i f.
  - apply wp_ret. exists []. rewrite app_nil_r.
    repeat split; cbn; auto; lia.
  - cbn [for_keywords]. apply wp_bind.
    eapply wp_weaken; [apply iteration_calls|].
    intros f1 r1 (evs1 & T1 & A1 & N1 & J1 & F1 & S1 & D1 & M1 & R1).
    destruct r1 as [e|[]].
    + exists evs1. repeat split; auto. rewrite S1. exact D1.
    + eapply wp_weaken; [apply (IH (i + 1))|].
      intros f2 r2 (evs2 & T2 & A2 & N2 & J2 & F2 & D2 & M2 & R2).
      exists (evs1 ++ evs2)%list.
      split; [rewrite T2, T1; symmetry; apply app_assoc|].
      split; [rewrite records_merged_app; lia|].
      split; [rewrite tallied_app; lia|].
      split; [intros last; apply calls_justified_app; auto|].
      split; [now apply calls_followed_up_app|].
      split; [rewrite searched_keywords_app, !filter_app, !length_app; lia|].
      split; [rewrite !filter_app, !length_app; lia|].
      unfold no_read_csv in *. rewrite forallb_app, R1, R2. reflexivity.
Qed.

Lemma batch_fetch_articles_report (keywords : option (list string))
    (m d pause_seconds : Z) (w : World) :
  wp (batch_fetch_articles env keywords m d pause_seconds) w
    (batch_report_post w).
Proof.
  apply wp_batch_fetch_articles. unfold batch_fetch_articles_frame.
  set (kws := match keywords with None => ORTHO_KEYWORDS | Some l => l end).
  wp_run.
  all: (eapply wp_weaken; [apply for_keywords_calls|]).
  all: intros f2 r2 (evs & T & A & N & J & F & D & M & R); wp_simpl.
  all: unfold print_statistics; wp_run.
  all: cbn [world trace emit_ev api_key_env store total_articles
            total_new_articles] in T, A, N.
  all: rewrite <- ?app_assoc in T; cbn [app] in T.
  all: match type of T with
       | _ = (_ ++ ?pre)%list => exists pre
       end.
  all: unfold no_read_csv in *.
  all: cbn [records_merged merged_records tallied tally calls_justified
            calls_followed_up is_call filter is_details is_merge forallb
            is_read_csv negb andb searched_keywords flat_map app].
  all: fold (searched_keywords evs).
  all: split; [auto|].
  all: split; [auto|].
  all: split; [exact D|].
  all: split; [exact M|].
  all: split; [exact R|].
  all: try (cbn [trace emit_ev]; rewrite T; reflexivity).
  all: split; [lia|].
  all: match goal with
       | H : read_csv_answer _ = _ |- _ => cbn [store emit_ev] in H
       end.
  all: cbn [trace emit_ev store]; unfold closing, summary_line.
  all: match goal with H : read_csv_answer _ = _ |- _ => rewrite H end.
  all: cbn [records_merged merged_records tallied tally].
  all: rewrite T, <- !app_assoc; cbn [app].
  all: repeat f_equal; lia.
Qed.

(** The calls of a run and its end, in terms of the events the run
    emitted. *)
Lemma batch_fetch_articles_report_emitted (keywords : option (list string))
    (m d pause_seconds : Z) (w : World) :
  let run := batch_fetch_articles env keywords m d pause_seconds in
  exists evs,
    calls_justified None evs /\
    calls_followed_up evs /\
    (List.length (filter is_details evs) <=
     List.length (searched_keywords evs))%nat /\
    (List.length (filter is_merge evs) <=
     List.length (filter is_details evs))%nat /\
    no_read_csv evs /\
    match snd (run w) with
    | inr total_new =>
        total_new = tallied evs /\
        emitted run w = (evs ++ closing evs (store (fst (run w))))%list
    | inl _ => emitted run w = evs
    end.
Proof.
  intros run.
  pose proof (batch_fetch_articles_report keywords m d pause_seconds w) as H.
  unfold wp in H. fold run in H.
  destruct H as (evs & J & F & D & M & R & H).
  exists evs. repeat (split; [assumption|]).
  unfold emitted. fold run.
  destruct (snd (run w)) as [e|total_new].
  - rewrite H. apply skipn_length_app.
  - destruct H as [Ht H]. split; [exact Ht|].
    rewrite H. apply skipn_length_app.
Qed.

Lemma calls_justified_merge (evs : list Event) :
  forall last articles answer,
    calls_justified last evs ->
    In (CallMerge articles answer) evs -> articles <> [].
Proof.
  induction evs as [|ev rest IH]; intros last articles answer HJ Hin;
    [destruct Hin|].
  cbn [calls_justified] in HJ. destruct HJ as [Hev Hrest].
  destruct Hin as [->|Hin]; [|eapply IH; eauto].
  destruct last as [[]|]; try contradiction.
  destruct answer0; try contradiction. apply Hev.
Qed.

Lemma calls_justified_details (evs : list Event) :
  forall last p answer,
    calls_justified last evs ->
    In (CallDetails p answer) evs -> truthy p = true.
Proof.
  induction evs as [|ev rest IH]; intros last p answer HJ Hin;
    [destruct Hin|].
  cbn [calls_justified] in HJ. destruct HJ as [Hev Hrest].
  destruct Hin as [->|Hin]; [|eapply IH; eauto].
  destruct last as [[]|]; try contradiction.
  destruct answer0; try contradiction. apply Hev.
Qed.

Lemma calls_justified_closing (evs : list Event) (final : option Rows) :
  forall last, calls_justified last (closing evs final).
Proof. intros last. cbn. auto. Qed.







End BatchCalls.

(** ** The batch run: what it guarantees *)

Section BatchTheorems.

Context (env : Env).






Lemma expected_beats_pause (pause m d : Z) (keywords : list string) (s : Z) :
  In (Slept s) (expected_beats pause m d keywords) -> s = pause.
Proof.
  induction keywords as [|k rest IH]; [intros []|].
  destruct rest as [|k2 rest'].
  - intros [H|[]]; discriminate H.
  - change (expected_beats pause m d (k :: k2 :: rest'))
      with (Searched k m d :: Slept pause
              :: expected_beats pause m d (k2 :: rest')).
    intros [H|[H|H]]; [discriminate H | congruence | auto].
Qed.

(** Whether the loop gets through or not, it sleeps for [pause] only. *)
Lemma loop_beats_pause (pause m d : Z) (keywords : list string) (s : Z) :
  In (Slept s) (loop_beats pause m d keywords) -> s = pause.
Proof.
  unfold loop_beats.
  destruct (loop_answer pause keywords), keywords;
    try apply expected_beats_pause.
  intros [H|[H|[]]]; [discriminate H | congruence].
Qed.


Lemma sleep_in_beats (evs : list Event) (s : Z) :
  In (CallSleep s) evs -> In (Slept s) (beats evs).
Proof.
  intros H. unfold beats. apply in_flat_map.
  exists (CallSleep s). split; [assumption | now left].
Qed.

(** The run as a whole, in terms of the events it emitted. *)
Lemma batch_fetch_articles_emitted (keywords : option (list string))
    (m d pause_seconds : Z) (w : World) :
  let run := batch_fetch_articles env keywords m d pause_seconds in
  let evs := emitted run w in
  let kws := match keywords with None => ORTHO_KEYWORDS | Some l => l end in
  let pause := actual_pause (api_key_env w) pause_seconds in
  trace (fst (run w)) = (trace w ++ evs)%list /\
  api_key_env (fst (run w)) = api_key_env w /\
  beats evs = loop_beats pause m d kws /\
  failures_logged evs /\
  (no_merge evs -> store (fst (run w)) = store w) /\
  match loop_answer pause kws with
  | inl e => snd (run w) = inl e
  | inr _ =>
      exists total, snd (run w) = inr total /\ (no_merge evs -> total = 0)
  end.
Proof.
  intros run evs kws pause.
  pose proof (batch_fetch_articles_runs env keywords m d pause_seconds w)
    as H.
  unfold wp, batch_post in H. fold run kws pause in H.
  destruct H as (evs' & T & K & B & L & U & R).
  assert (Hev : evs = evs').
  { unfold evs, emitted. fold run. rewrite T. apply skipn_length_app. }
  rewrite Hev. auto 10.
Qed.


(** One iteration, in terms of the events it emitted. *)
Lemma iteration_emitted (n pause m d i : Z) (keyword : string) (f : Frame) :
  let step := iteration env n pause m d i keyword in
  iteration_post n pause m d i keyword f (fst (step f)) (snd (step f)) /\
  trace (world (fst (step f))) =
    (trace (world f) ++ emitted_in step f)%list.
Proof.
  intros step.
  pose proof (iteration_runs env n pause m d i keyword f) as H.
  unfold wp in H. fold step in H. split; [exact H|].
  destruct H as (_ & evs & T & _).
  unfold emitted_in. rewrite T at 1. now rewrite T, skipn_length_app.
Qed.








(** The same holds for any identifier list that Python takes for false
    ([None], [0], the empty string, an empty list or dict). *)
Lemma falsy_idlist_changes_nothing
    (n pause m d i : Z) (keyword : string) (f : Frame) (r p : PyVal) :
  let step := iteration env n pause m d i keyword in
  In (CallSearch keyword m d (inr r)) (emitted_in step f) ->
  search_idlist r = Some p -> truthy p = false ->
  untouched f (fst (step f)) /\ no_merge (emitted_in step f).
Proof.
  intros step Hin Hp Hfalse.
  destruct (iteration_emitted n pause m d i keyword f) as [Hpost T].
  fold step in Hpost, T.
  destruct Hpost as (Hr & evs' & T' & _ & _ & _ & _ & _ & Hs & _).
  assert (evs' = emitted_in step f)
    by (rewrite T in T'; now apply app_inv_head in T').
  subst evs'. apply (Hs _ _ _ _ Hin). right. now exists p.
Qed.


(** The quotient taken is the floor: three times the key-holder's pause
    never exceeds [pause_seconds] once that is 3 or more. *)
Lemma actual_pause_floor (k : string) (pause_seconds : Z) :
  k <> ""%string -> 3 <= pause_seconds ->
  3 * actual_pause (Some k) pause_seconds <= pause_seconds <
  3 * actual_pause (Some k) pause_seconds + 3.
Proof.
  intros Hk Hp. unfold actual_pause, api_key_truthy.
  destruct (String.eqb_spec k ""); [contradiction|]. cbn [negb].
  pose proof (Z.div_mod pause_seconds 3 ltac:(lia)).
  pose proof (Z.mod_pos_bound pause_seconds 3 ltac:(lia)). lia.
Qed.

(** (C10) With an empty keyword list the run returns 0, makes no call at
    all (no search, no detail fetch, no merge, no sleep), leaves the store
    as it was, and still tries to read the store for the summary. *)
Theorem empty_keyword_list_only_summarises
    (m d pause_seconds : Z) (w : World) :
  let run := batch_fetch_articles env (Some []) m d pause_seconds in
  snd (run w) = inr 0 /\
  store (fst (run w)) = store w /\
  forallb (fun ev => negb (is_call ev)) (emitted run w) = true /\
  In (ReadCsv (read_csv_answer (store w))) (emitted run w).
Proof.
  intros run. unfold emitted, run.
  destruct w as [st key tr].
  destruct st as [rows|], (api_key_truthy key) eqn:Hkey;
    unfold batch_fetch_articles, batch_fetch_articles_frame, bind, in_world,
      environ_get_api_key, gets, print, emit, modify, print_statistics,
      try_except, read_csv_papers, eval, ret;
    cbn [world api_key_env]; rewrite Hkey;
    cbn -[skipn]; rewrite <- ?app_assoc, skipn_length_app;
    cbn; auto 10.
Qed.

End BatchTheorems.

(** ** The batch run on sample environments *)

Lemma tally_matches_growth_iff (old articles updated_df : Rows) :
  new_articles articles updated_df = len_rows updated_df - len_rows old <->
  len_rows old = 2 * (len_rows updated_df - len_rows articles).
Proof. unfold new_articles. lia. Qed.

(** (C2) The count of new articles that [batch_fetch_articles] reports is
    not the growth of the store.  The store holds one row, "1"; the one
    keyword finds one article, "2", which the merge appends: the store
    grows by one row, and line 117 computes [1 - (2 - 1) = 0], which is
    also what the run returns. *)
Theorem reported_new_count_is_not_store_growth :
  let run := batch_fetch_articles env_one_new (Some ["orthodontic"]) 30 365 3 in
  snd (run world_one_row) = inr 0 /\
  In (Print (LAddedNew 0)) (emitted run world_one_row) /\
  store (fst (run world_one_row)) =
    Some [sample_article "1"; sample_article "2"] /\
  store_size (fst (run world_one_row)) - store_size world_one_row = 1.
Proof. vm_compute. auto 20. Qed.

(** On the first write the code counts every fetched record, also one
    that the merge drops as a repeat: two are reported, one row is
    stored. *)
Lemma first_write_counts_repeats :
  let run :=
    batch_fetch_articles env_repeated_record (Some ["orthodontic"]) 30 365 3 in
  snd (run empty_world) = inr 2 /\
  store (fst (run empty_world)) = Some [sample_article "1"].
Proof. vm_compute. split; reflexivity. Qed.

(** The scenario of the spec (section 8), where the formula happens to be
    right: the store starts absent, "a" brings two records and "b" one of
    them again; the store ends with 2 rows, 0 are reported for "b" and the
    run returns 2. *)
Lemma two_terms_scenario :
  let run := batch_fetch_articles env_two_terms (Some ["a"; "b"]) 30 365 3 in
  snd (run empty_world) = inr 2 /\
  store (fst (run empty_world)) =
    Some [sample_article "1"; sample_article "2"] /\
  In (Print (LAdded 2)) (emitted run empty_world) /\
  In (Print (LAddedNew 0)) (emitted run empty_world).
Proof. vm_compute. auto 30. Qed.






Lemma merge_keeps_identifiers_unique_witness :
  store (fst (update_papers_csv env_no_hits
                [sample_article "1"; sample_article "1"] empty_world)) =
    Some [sample_article "1"] /\
  NoDup (ids [sample_article "1"]).
Proof.
  exact (proj1 merge_keeps_identifiers_unique env_no_hits
           [sample_article "1"; sample_article "1"] empty_world
           _ [sample_article "1"] eq_refl).
Defined.



(** ** The debug probes: properties *)

Section ProbeRules.

Context (env : Env).

Lemma wp_try_except {S A} (body : M S A)
    (clauses : list (ExcClass * (Exc -> M S A))) (s : S)
    (Q : S -> Res A -> Prop) :
  wp body s (fun s' r =>
               match r with
               | inr a => Q s' (inr a)
               | inl e =>
                   match select_clause clauses e with
                   | Some h => wp (h e) s' Q
                   | None => Q s' (inl e)
                   end
               end) ->
  wp (try_except body clauses) s Q.
Proof.
  unfold wp, try_except. destruct (body s) as [s' [e|a]]; simpl; auto.
  destruct (select_clause clauses e); auto.
Qed.

Lemma wp_in_probe_world {A} (c : M World A) (f : ProbeFrame)
    (Q : ProbeFrame -> Res A -> Prop) :
  wp c (probe_world f) (fun w r => Q (mkProbeFrame w (response f)) r) ->
  wp (in_probe_world c) f Q.
Proof.
  unfold wp, in_probe_world. destruct (c (probe_world f)) as [w r].
  exact (fun H => H).
Qed.

Lemma wp_read_response (f : ProbeFrame)
    (Q : ProbeFrame -> Res Response -> Prop) :
  match response f with
  | Some r => Q f (inr r)
  | None => Q f (inl (mkExc UnboundLocalError
                        "cannot access local variable 'response'"))
  end ->
  wp read_response f Q.
Proof. unfold wp, read_response. destruct (response f); exact (fun H => H). Qed.

(** [requests.get] answers what the environment says for the world it is
    called in. *)
Lemma wp_requests_get_answer (u : string) (w : World)
    (Q : World -> Res Response -> Prop) :
  (let answer := requests_get_answer env u w in
   Q (emit_ev (CallGet u answer) w) answer) ->
  wp (requests_get env u) w Q.
Proof. exact (fun H => H). Qed.

Lemma wp_test_pubmed_connection (w : World) (Q : World -> Res Result -> Prop) :
  wp (test_pubmed_connection_frame env) (mkProbeFrame w None)
    (fun f r => Q (probe_world f) r) ->
  wp (test_pubmed_connection env) w Q.
Proof.
  unfold wp, test_pubmed_connection.
  destruct (test_pubmed_connection_frame env (mkProbeFrame w None)) as [f r].
  exact (fun H => H).
Qed.

End ProbeRules.

Ltac probe_simpl :=
  cbn beta iota delta [probe_world response select_clause].

Ltac probe_step :=
  lazymatch goal with
  | |- wp (bind _ _) _ _ => apply wp_bind
  | |- wp (ret _) _ _ => apply wp_ret
  | |- wp (eval _) _ _ => apply wp_eval
  | |- wp (in_probe_world _) _ _ => apply wp_in_probe_world
  | |- wp (bind_response _) _ _ => unfold bind_response; apply wp_modify
  | |- wp read_response _ _ => apply wp_read_response
  | |- wp (try_except _ _) _ _ => apply wp_try_except
  | |- wp (fetch_pubmed_studies _ _ _ _) _ _ =>
      apply wp_fetch_pubmed_studies; intros [?e|?search_results]
  | |- wp (get_pubmed_article_details _ _) _ _ =>
      apply wp_get_pubmed_article_details; intros [?e|?articles]
  | |- wp (if ?b then _ else _) _ _ => destruct b eqn:?
  | |- match ?x with inl _ => _ | inr _ => _ end => destruct x eqn:?
  | |- match (if ?b then _ else _) with Some _ => _ | None => _ end =>
      destruct b eqn:?
  end; probe_simpl.

Ltac probe_cbn := cbn -[einfo_url isinstance].

Ltac probe_unfold :=
  unfold test_pubmed_connection, test_pubmed_connection_frame, try_except,
    bind, in_probe_world, requests_get, gets, emit, modify, eval, ret,
    bind_response, read_response;
  probe_cbn.

Section ProbeProperties.

Context (env : Env).

Lemma test_pubmed_connection_runs (w : World) :
  let answer := requests_get_answer env einfo_url w in
  wp (test_pubmed_connection env) w
    (fun w' r =>
       w' = emit_ev (CallGet einfo_url answer) w /\
       connection_post answer r).
Proof.
  intros answer. apply wp_test_pubmed_connection.
  unfold test_pubmed_connection_frame.
  apply wp_try_except. apply wp_bind. apply wp_in_probe_world.
  apply wp_requests_get_answer. fold answer. intros answer'. subst answer'.
  probe_simpl.
  repeat probe_step.
  all: split; [unfold answer; congruence|].
  all: unfold connection_post, http_ok.
  all: repeat match goal with u : unit |- _ => destruct u end.
  all: split; intros res Hres Hstatus.
  all: try discriminate Hres.
  all: injection Hres as <-; try discriminate Hstatus.
  all: exists r; eexists; repeat split; eassumption || reflexivity.
Qed.

(** A transport failure is reported as an error that carries the message
    of the exception. *)
Lemma connection_transport_failure (w : World) (e : Exc) :
  requests_get_answer env einfo_url w = inl e ->
  isinstance RequestException e = true ->
  snd (test_pubmed_connection env w) =
    inr (mkResult error MConnectionFailed (DText (str_exc e)) None).
Proof.
  intros Ha Hi. probe_unfold. rewrite Ha. probe_cbn. rewrite Hi. reflexivity.
Qed.

(** So is an HTTP error status. *)
Lemma connection_http_error (w : World) (resp : Response) :
  requests_get_answer env einfo_url w = inr resp ->
  400 <= status_code resp < 600 ->
  exists res,
    snd (test_pubmed_connection env w) = inr res /\ status res = error.
Proof.
  intros Ha Hs. probe_unfold. rewrite Ha. probe_cbn. unfold raise_for_status.
  replace (400 <=? status_code resp) with true
    by (symmetry; apply Z.leb_le; lia).
  replace (status_code resp <? 600) with true
    by (symmetry; apply Z.ltb_lt; lia).
  eexists; split; reflexivity.
Qed.

(** A body that is not JSON is reported as an error, by whichever clause
    the decode error of the installed [requests] falls under. *)
Lemma connection_invalid_json (w : World) (resp : Response) (e : Exc) :
  requests_get_answer env einfo_url w = inr resp ->
  http_ok resp ->
  json resp = inl e ->
  isinstance RequestException e = true \/
  isinstance JSONDecodeError e = true ->
  exists res,
    snd (test_pubmed_connection env w) = inr res /\ status res = error.
Proof.
  intros Ha Hok Hj Hi. probe_unfold. rewrite Ha. probe_cbn.
  unfold http_ok in Hok. rewrite Hok, Hj. probe_cbn.
  destruct (isinstance RequestException e) eqn:Hre; probe_cbn.
  - eexists; split; reflexivity.
  - destruct Hi as [Hi|Hi]; [discriminate|]. rewrite Hi. probe_cbn.
    eexists; split; reflexivity.
Qed.

(** An envelope with an [einforesult] object is a success. *)
Lemma connection_success (w : World) (resp : Response)
    (d info : list (string * PyVal)) :
  requests_get_answer env einfo_url w = inr resp ->
  http_ok resp ->
  json resp = inr (PDict d) ->
  lookup "einforesult" d = Some (PDict info) ->
  exists res,
    snd (test_pubmed_connection env w) = inr res /\ status res = success.
Proof.
  intros Ha Hok Hj Hl. probe_unfold. rewrite Ha. probe_cbn.
  unfold http_ok in Hok. rewrite Hok, Hj. probe_cbn. rewrite Hl. probe_cbn.
  eexists; split; reflexivity.
Qed.

(** An envelope without the key is a warning. *)
Lemma connection_warning (w : World) (resp : Response)
    (d : list (string * PyVal)) :
  requests_get_answer env einfo_url w = inr resp ->
  http_ok resp ->
  json resp = inr (PDict d) ->
  lookup "einforesult" d = None ->
  exists res,
    snd (test_pubmed_connection env w) = inr res /\ status res = warning.
Proof.
  intros Ha Hok Hj Hl. probe_unfold. rewrite Ha. probe_cbn.
  unfold http_ok in Hok. rewrite Hok, Hj. probe_cbn. rewrite Hl. probe_cbn.
  eexists; split; reflexivity.
Qed.

Lemma all_str_map_PStr (ids : list string) :
  all_str (map PStr ids) = Some ids.
Proof.
  induction ids as [|x rest IH]; [reflexivity|]. cbn. now rewrite IH.
Qed.

Lemma search_idlist_get (sr p : PyVal) :
  search_idlist sr = Some p ->
  truthy sr = true /\
  contains "esearchresult" sr = inr true /\
  exists es,
    get sr "esearchresult" (PDict []) = inr es /\
    get es "idlist" (PList []) = inr p.
Proof.
  destruct sr; try discriminate. cbn [search_idlist contains get truthy].
  destruct d as [|kv d]; [discriminate|].
  destruct (lookup "esearchresult" (kv :: d)) as [es|]; [|discriminate].
  destruct es; try discriminate. intros Hl.
  repeat split. eexists. split; [reflexivity|]. cbn [get]. now rewrite Hl.
Qed.

Lemma perform_test_search_runs (keyword : string) (max_results : Z)
    (w : World) :
  wp (perform_test_search env keyword max_results) w
    (test_search_post keyword max_results w).
Proof.
  unfold perform_test_search, try_test_search.
  apply wp_try_except. repeat probe_step.
  all: try match goal with
           | H : isinstance Exception _ = false |- _ =>
               rewrite isinstance_Exception in H; discriminate H
           end.
  all: do 2 eexists; split; [reflexivity|].
  all: split; [trace_simpl; reflexivity|]; trace_simpl.
  all: split; [reflexivity|]; split; [reflexivity|].
  all: split; [reflexivity|].
  all: split; [cbn; auto|].
  all: split;
    [intros sr Hin Hid; in_cases Hin; injection Hin as <-;
     apply search_idlist_get in Hid;
     destruct Hid as (Ht & Hc & es & Hg1 & Hg2);
     try rewrite Ht, Hc in *; cbn [negb] in *;
     try reflexivity; exfalso;
     assert (negb (truthy (PList [])) = true) by reflexivity;
     congruence|].
  all: split;
    [intros ids Hin; in_cases Hin; injection Hin as Hp Ha;
     try reflexivity; exfalso; subst;
     match goal with
     | H : join _ _ = inl _ |- _ =>
         cbn [join] in H; rewrite all_str_map_PStr in H; discriminate H
     | H : negb (rows_truthy []) = false |- _ => discriminate H
     end|].
  all: split;
    [intros p' articles' Hin Hne; in_cases Hin; injection Hin as Hp Ha;
     subst;
     first [ split; reflexivity
           | exfalso; destruct articles'; [congruence | discriminate] ]|].
  all: intros ev e0 Hin Hf; in_cases Hin; subst ev; cbn in Hf;
    first [discriminate Hf | injection Hf as <-; reflexivity].
Qed.

End ProbeProperties.

(** ** The debug probes: what they report *)

Section ProbeTheorems.

Context (env : Env).

(** [perform_test_search] in terms of the events it emitted. *)
Lemma perform_test_search_emitted (keyword : string) (max_results : Z)
    (w : World) :
  let run := perform_test_search env keyword max_results in
  test_search_post keyword max_results w (fst (run w)) (snd (run w)) /\
  trace (fst (run w)) = (trace w ++ emitted run w)%list.
Proof.
  intros run.
  pose proof (perform_test_search_runs env keyword max_results w) as H.
  unfold wp in H. fold run in H. split; [exact H|].
  destruct H as (evs & res & _ & T & _).
  unfold emitted. rewrite T at 1. now rewrite T, skipn_length_app.
Qed.

(** An exception of the [try] body becomes an error result with its
    message. *)
Lemma perform_test_search_catches (keyword : string) (max_results : Z)
    (w : World) (e : Exc) :
  snd (try_test_search env keyword max_results w) = inl e ->
  snd (perform_test_search env keyword max_results w) =
    inr (mkResult error MSearchFailed (DText (str_exc e)) None).
Proof.
  unfold perform_test_search, try_except.
  destruct (try_test_search env keyword max_results w) as [w1 [e1|res]];
    cbn [snd]; [|discriminate].
  intros H; injection H as ->. cbn [select_clause].
  now rewrite isinstance_Exception.
Qed.

(** (C8) [perform_test_search] always returns a result tagged success,
    warning or error and lets no exception out.  An empty identifier list
    gives a warning; so does a detail fetch that returns no record for the
    (string) identifiers found; a detail fetch that returns records gives
    a success carrying them; and any exception, raised by the search, by
    the detail fetch or by the code in between, gives an error whose
    details are the message of the exception. *)
Theorem test_search_reports_every_outcome
    (keyword : string) (max_results : Z) (w : World) :
  let run := perform_test_search env keyword max_results in
  let evs := emitted run w in
  (exists res,
      snd (run w) = inr res /\
      (status res = success \/ status res = warning \/ status res = error)) /\
  (forall sr,
      In (CallSearch keyword max_results 30 (inr sr)) evs ->
      search_idlist sr = Some (PList []) ->
      exists res, snd (run w) = inr res /\ status res = warning) /\
  (forall ids,
      In (CallDetails (PList (map PStr ids)) (inr [])) evs ->
      exists res, snd (run w) = inr res /\ status res = warning) /\
  (forall p articles,
      In (CallDetails p (inr articles)) evs -> articles <> [] ->
      exists res,
        snd (run w) = inr res /\ status res = success /\
        details res = DArticles articles) /\
  (forall ev e,
      In ev evs -> failure_of ev = Some e ->
      snd (run w) =
        inr (mkResult error MSearchFailed (DText (str_exc e)) None)) /\
  (forall e,
      snd (try_test_search env keyword max_results w) = inl e ->
      snd (run w) =
        inr (mkResult error MSearchFailed (DText (str_exc e)) None)).
Proof.
  intros run evs.
  destruct (perform_test_search_emitted keyword max_results w) as [Hpost T].
  fold run in Hpost, T. fold evs in T.
  destruct Hpost
    as (evs' & res & Hr & T' & _ & _ & _ & Hst & Ha & Hb & Hc & Hd).
  assert (evs' = evs) by (rewrite T in T'; now apply app_inv_head in T').
  subst evs'.
  repeat split.
  - exists res. auto.
  - intros sr Hin Hid. exists res. eauto.
  - intros ids Hin. exists res. eauto.
  - intros p articles Hin Hne. exists res.
    destruct (Hc _ _ Hin Hne). auto.
  - intros ev e Hin Hf. rewrite Hr. f_equal. eauto.
  - apply perform_test_search_catches.
Qed.

(** (C9) Neither probe touches the store: after [test_pubmed_connection]
    and after [perform_test_search] the store is what it was, and neither
    called the merge. *)
Theorem probes_leave_the_store_alone
    (keyword : string) (max_results : Z) (w : World) :
  store (fst (test_pubmed_connection env w)) = store w /\
  no_merge (emitted (test_pubmed_connection env) w) /\
  store (fst (perform_test_search env keyword max_results w)) = store w /\
  no_merge (emitted (perform_test_search env keyword max_results) w).
Proof.
  pose proof (test_pubmed_connection_runs env w) as Hc.
  unfold wp in Hc. destruct Hc as [Hw _].
  destruct (perform_test_search_emitted keyword max_results w) as [Hpost T].
  destruct Hpost as (evs' & res & _ & T' & Hs & _ & Hnm & _).
  assert (evs' = emitted (perform_test_search env keyword max_results) w)
    by (rewrite T in T'; now apply app_inv_head in T').
  subst evs'.
  split; [rewrite Hw; reflexivity|].
  split; [|split; assumption].
  unfold emitted. rewrite Hw. cbn [trace emit_ev].
  rewrite skipn_length_app. reflexivity.
Qed.

(** When the value under [einforesult] is not an object, the success
    branch raises [AttributeError] while it formats the details, and no
    clause of the [try] catches it. *)
Lemma connection_escapes_on_odd_info (w : World) (resp : Response)
    (d : list (string * PyVal)) (info : PyVal) (e : Exc) :
  requests_get_answer env einfo_url w = inr resp ->
  http_ok resp ->
  json resp = inr (PDict d) ->
  lookup "einforesult" d = Some info ->
  get info "version" (PStr "不明") = inl e ->
  snd (test_pubmed_connection env w) = inl e /\
  exc_class e = AttributeError.
Proof.
  intros Ha Hok Hj Hl Hg.
  assert (Hcls : exc_class e = AttributeError).
  { destruct info; cbn in Hg; try discriminate;
      injection Hg as <-; reflexivity. }
  split; [|exact Hcls].
  probe_unfold. rewrite Ha. probe_cbn.
  unfold http_ok in Hok. rewrite Hok, Hj. probe_cbn.
  rewrite Hl. cbn -[einfo_url isinstance get]. rewrite Hg.
  probe_cbn. unfold isinstance. rewrite Hcls. reflexivity.
Qed.

End ProbeTheorems.

(** (C7) [test_pubmed_connection] does not always return a tagged result.
    On a 200 answer whose body is the JSON document
    [{"einforesult": null}], which holds the recognised key, it raises
    [AttributeError] instead of returning a success; on a 200 answer whose
    body is the JSON document [null], which lacks the key, it raises
    [TypeError] instead of returning a warning. *)
Theorem connection_probe_lets_exceptions_out :
  snd (test_pubmed_connection env_null_info empty_world) =
    inl (mkExc AttributeError
           "'NoneType' object has no attribute 'get'") /\
  snd (test_pubmed_connection env_null_body empty_world) =
    inl (mkExc TypeError "argument of type 'NoneType' is not iterable").
Proof. split; vm_compute; reflexivity. Qed.

Lemma test_search_reports_every_outcome_witness :
  (exists res,
      snd (perform_test_search env_no_hits "crowding" 2 empty_world) =
        inr res /\ status res = warning) /\
  (exists res,
      snd (perform_test_search env_lost_details "crowding" 2 empty_world) =
        inr res /\ status res = warning) /\
  (exists res,
      snd (perform_test_search env_one_new "crowding" 2 empty_world) =
        inr res /\ status res = success /\
      details res = DArticles [sample_article "2"]) /\
  snd (perform_test_search env_search_down "crowding" 2 empty_world) =
    inr (mkResult error MSearchFailed (DText "connection refused") None).
Proof.
  split; [|split; [|split]].
  - apply (proj1 (proj2 (test_search_reports_every_outcome env_no_hits
                           "crowding" 2 empty_world)) (idlist_result [])).
    + vm_compute. auto.
    + reflexivity.
  - apply (proj1 (proj2 (proj2 (test_search_reports_every_outcome
                                  env_lost_details "crowding" 2
                                  empty_world))) ["1"]).
    vm_compute. auto.
  - apply (proj1 (proj2 (proj2 (proj2 (test_search_reports_every_outcome
                                         env_one_new "crowding" 2
                                         empty_world))))
             (PList [PStr "2"]) [sample_article "2"]).
    + vm_compute. auto.
    + discriminate.
  - apply (proj2 (proj2 (proj2 (proj2 (proj2
             (test_search_reports_every_outcome env_search_down "crowding" 2
                empty_world)))))
             (mkExc ConnectionError "connection refused")).
    reflexivity.
Defined.

(** ** The batch run: calls, totals and log of a whole run *)

Section BatchReports.

Context (env : Env).



(** (X3) The calls of a run are arranged as the code nests them: every
    detail fetch asks for the identifier list of the search result
    returned just before it, a list Python takes for true; every merge is
    given the record list that the detail fetch just before it returned,
    and that list is not empty.  So no run merges an empty batch. *)
Theorem calls_follow_the_nesting
    (keywords : option (list string)) (m d pause_seconds : Z) (w : World) :
  let run := batch_fetch_articles env keywords m d pause_seconds in
  calls_justified None (emitted run w) /\
  (forall articles answer,
      In (CallMerge articles answer) (emitted run w) -> articles <> []) /\
  (forall p answer,
      In (CallDetails p answer) (emitted run w) -> truthy p = true).
Proof.
  intros run.
  destruct (batch_fetch_articles_report_emitted env keywords m d
              pause_seconds w) as (evs & J & _ & _ & _ & _ & E).
  fold run in E.
  assert (HJ : calls_justified None (emitted run w)).
  { destruct (snd (run w)) as [e|total_new].
    - now rewrite E.
    - destruct E as [_ E]. rewrite E.
      apply calls_justified_app; [exact J|].
      apply calls_justified_closing. }
  split; [exact HJ|]. split.
  - intros articles answer. apply (calls_justified_merge _ _ _ _ HJ).
  - intros p answer. apply (calls_justified_details _ _ _ _ HJ).
Qed.




End BatchReports.

(** (X5) With a key the pause is at least one second, whatever
    [pause_seconds] is, and it is not longer than [pause_seconds] as soon
    as that is at least 1; for a [pause_seconds] of 0 or less the holder
    of a key waits a full second where a run without key does not
    wait longer than configured. *)
Theorem key_holder_pause_bounds (key : string) (pause_seconds : Z) :
  key <> ""%string ->
  1 <= actual_pause (Some key) pause_seconds /\
  (1 <= pause_seconds ->
   actual_pause (Some key) pause_seconds <= pause_seconds) /\
  (pause_seconds <= 0 ->
   actual_pause (Some key) pause_seconds = 1 /\
   actual_pause None pause_seconds = pause_seconds).
Proof.
  intros Hk. unfold actual_pause, api_key_truthy.
  destruct (String.eqb_spec key ""); [contradiction|]. cbn [negb].
  pose proof (Z.div_mod pause_seconds 3 ltac:(lia)).
  pose proof (Z.mod_pos_bound pause_seconds 3 ltac:(lia)).
  repeat split; lia.
Qed.

Lemma key_holder_pause_bounds_witness :
  1 <= actual_pause (Some "secret") 0 /\
  (1 <= 0 -> actual_pause (Some "secret") 0 <= 0) /\
  (0 <= 0 ->
   actual_pause (Some "secret") 0 = 1 /\ actual_pause None 0 = 0).
Proof.
  apply (key_holder_pause_bounds "secret" 0). discriminate.
Defined.






(** ** The command line: properties *)

Section Strings.

Lemma split_comma_nonempty (s : string) : split_comma s <> [].
Proof.
  induction s as [|c rest IH]; cbn [split_comma]; [discriminate|].
  destruct (Ascii.eqb c ","); [discriminate|].
  destruct (split_comma rest); discriminate.
Qed.

Lemma split_comma_join (s : string) :
  String.concat "," (split_comma s) = s.
Proof.
  induction s as [|c rest IH]; [reflexivity|].
  cbn [split_comma]. destruct (Ascii.eqb_spec c ",") as [->|Hc].
  - pose proof (split_comma_nonempty rest) as Hne.
    destruct (split_comma rest) as [|piece pieces] eqn:E; [contradiction|].
    change (String.concat "," (EmptyString :: piece :: pieces))
      with (("" ++ "," ++ String.concat "," (piece :: pieces))%string).
    rewrite IH. reflexivity.
  - pose proof (split_comma_nonempty rest) as Hne.
    destruct (split_comma rest) as [|piece pieces] eqn:E; [contradiction|].
    destruct pieces as [|piece2 pieces'].
    + cbn [String.concat] in *. now rewrite IH.
    + change (String.concat "," (String c piece :: piece2 :: pieces'))
        with (String c (piece ++ "," ++
                        String.concat "," (piece2 :: pieces'))%string).
      change (String.concat "," (piece :: piece2 :: pieces'))
        with ((piece ++ "," ++
               String.concat "," (piece2 :: pieces'))%string) in IH.
      now rewrite IH.
Qed.

Lemma split_comma_length (s : string) :
  List.length (split_comma s) = S (count_char "," s).
Proof.
  induction s as [|c rest IH]; [reflexivity|].
  cbn [split_comma count_char]. rewrite (Ascii.eqb_sym "," c).
  destruct (Ascii.eqb c ",").
  - cbn [List.length]. now rewrite IH.
  - pose proof (split_comma_nonempty rest) as Hne.
    destruct (split_comma rest) as [|piece pieces]; [contradiction|].
    cbn [List.length] in *. exact IH.
Qed.

Lemma split_comma_pieces (s : string) :
  forall piece, In piece (split_comma s) -> contains_char "," piece = false.
Proof.
  induction s as [|c rest IH]; intros piece Hin.
  - destruct Hin as [<-|[]]. reflexivity.
  - cbn [split_comma] in Hin. destruct (Ascii.eqb c ",") eqn:Hc.
    + destruct Hin as [<-|Hin]; [reflexivity | now apply IH].
    + destruct (split_comma rest) as [|p ps].
      * destruct Hin as [<-|[]]. cbn [contains_char].
        rewrite Ascii.eqb_sym, Hc. reflexivity.
      * destruct Hin as [<-|Hin].
        -- cbn [contains_char]. rewrite Ascii.eqb_sym, Hc.
           apply IH. now left.
        -- apply IH. now right.
Qed.

Lemma string_append_assoc (a b c : string) :
  ((a ++ b) ++ c = a ++ (b ++ c))%string.
Proof.
  induction a as [|x a IH]; [reflexivity|].
  cbn [String.append]. now rewrite IH.
Qed.

Lemma rstrip_split (s : string) :
  exists r, s = (rstrip s ++ r)%string /\ all_space r = true.
Proof.
  induction s as [|c rest (r & Hr & Hs)].
  - exists ""%string. split; reflexivity.
  - cbn [rstrip]. destruct (rstrip rest) as [|c' kept] eqn:E.
    + cbn [String.append] in Hr. subst r.
      destruct (is_space c) eqn:Hc.
      * exists (String c rest). cbn [String.append all_space].
        rewrite Hc, Hs. split; reflexivity.
      * exists rest. split; [reflexivity | exact Hs].
    + exists r. split; [|exact Hs].
      change (String c rest = String c (String c' kept ++ r)).
      now f_equal.
Qed.

Lemma rstrip_end (s : string) : ends_with_space (rstrip s) = false.
Proof.
  induction s as [|c rest IH]; [reflexivity|].
  cbn [rstrip]. destruct (rstrip rest) as [|c' kept] eqn:E.
  - destruct (is_space c) eqn:Hc; [reflexivity|].
    cbn [ends_with_space]. exact Hc.
  - exact IH.
Qed.

Lemma rstrip_fixed (s : string) :
  ends_with_space s = false -> rstrip s = s.
Proof.
  induction s as [|c rest IH]; [reflexivity|].
  intros H. cbn [rstrip]. destruct rest as [|c' rest'].
  - cbn [ends_with_space] in H. cbn [rstrip]. now rewrite H.
  - rewrite IH by exact H. reflexivity.
Qed.

Lemma lstrip_split (s : string) :
  exists l, s = (l ++ lstrip s)%string /\ all_space l = true.
Proof.
  induction s as [|c rest (l & Hl & Hs)].
  - exists ""%string. split; reflexivity.
  - cbn [lstrip]. destruct (is_space c) eqn:Hc.
    + exists (String c l). cbn [String.append all_space].
      rewrite Hc, Hs, <- Hl. split; reflexivity.
    + exists ""%string. split; reflexivity.
Qed.

Lemma lstrip_start (s : string) : starts_with_space (lstrip s) = false.
Proof.
  induction s as [|c rest IH]; [reflexivity|].
  cbn [lstrip]. destruct (is_space c) eqn:Hc; [exact IH | exact Hc].
Qed.

Lemma lstrip_fixed (s : string) :
  starts_with_space s = false -> lstrip s = s.
Proof.
  destruct s as [|c rest]; [reflexivity|].
  cbn [starts_with_space lstrip]. now intros ->.
Qed.

Lemma lstrip_end (s : string) :
  ends_with_space s = false -> ends_with_space (lstrip s) = false.
Proof.
  induction s as [|c rest IH]; [reflexivity|].
  intros H. cbn [lstrip]. destruct (is_space c); [|exact H].
  apply IH. destruct rest; [reflexivity | exact H].
Qed.

(** [strip] removes whitespace and nothing else, from both ends and all
    of it. *)
Lemma strip_takes_the_outer_whitespace (s : string) :
  (exists l r,
      s = (l ++ strip s ++ r)%string /\
      all_space l = true /\ all_space r = true) /\
  starts_with_space (strip s) = false /\
  ends_with_space (strip s) = false /\
  strip (strip s) = strip s.
Proof.
  assert (Hs : starts_with_space (strip s) = false) by apply lstrip_start.
  assert (He : ends_with_space (strip s) = false)
    by (apply lstrip_end, rstrip_end).
  split; [|split; [exact Hs | split; [exact He|]]].
  - destruct (rstrip_split s) as (r & Hr & Hrs).
    destruct (lstrip_split (rstrip s)) as (l & Hl & Hls).
    exists l, r. split; [|auto].
    unfold strip. rewrite Hr at 1. rewrite Hl at 1.
    apply string_append_assoc.
  - unfold strip at 1. rewrite rstrip_fixed by exact He.
    apply lstrip_fixed, Hs.
Qed.

Lemma contains_char_app (c : ascii) (a b : string) :
  contains_char c (a ++ b) = contains_char c a || contains_char c b.
Proof.
  induction a as [|x a IH]; [reflexivity|].
  cbn [String.append contains_char]. rewrite IH. apply orb_assoc.
Qed.

Lemma strip_keeps_free (c : ascii) (s : string) :
  contains_char c s = false -> contains_char c (strip s) = false.
Proof.
  destruct (strip_takes_the_outer_whitespace s) as [(l & r & Hs & _) _].
  intros H. rewrite Hs, !contains_char_app in H.
  apply orb_false_iff in H. destruct H as [_ H].
  apply orb_false_iff in H. apply H.
Qed.

Lemma strip_all_space (s : string) : all_space s = true -> strip s = ""%string.
Proof.
  intros H. unfold strip.
  assert (rstrip s = ""%string) as ->; [|reflexivity].
  induction s as [|c rest IH]; [reflexivity|].
  cbn [all_space] in H. apply andb_true_iff in H. destruct H as [Hc Hr].
  cbn [rstrip]. rewrite (IH Hr), Hc. reflexivity.
Qed.

Lemma split_comma_snoc (s : string) :
  split_comma (s ++ ",") = (split_comma s ++ [""%string])%list.
Proof.
  induction s as [|c rest IH]; [reflexivity|].
  cbn [String.append split_comma]. rewrite IH.
  destruct (Ascii.eqb c ","); [reflexivity|].
  pose proof (split_comma_nonempty rest) as Hne.
  destruct (split_comma rest); [contradiction | reflexivity].
Qed.

Lemma strip_trimmed (piece : string) : trimmed_of piece (strip piece).
Proof.
  destruct (strip_takes_the_outer_whitespace piece) as (H & Hs & He & _).
  unfold trimmed_of. auto.
Qed.

(** (X7) The custom keywords of line 183 are the pieces of [--custom]
    between its commas, trimmed, in their order.  The pieces hold no
    comma and give [--custom] back when joined with commas; each keyword
    is its piece without the whitespace at the two ends of the piece.  So
    there is one keyword more than there are commas (at least one), and
    no keyword holds a comma.  Characters are those with a code below
    256. *)
Theorem custom_keywords_are_trimmed_pieces (custom : string) :
  (exists pieces,
      String.concat "," pieces = custom /\
      (forall piece, In piece pieces -> contains_char "," piece = false) /\
      Forall2 trimmed_of pieces (custom_keywords custom)) /\
  List.length (custom_keywords custom) = S (count_char "," custom) /\
  (forall keyword,
      In keyword (custom_keywords custom) ->
      contains_char "," keyword = false).
Proof.
  unfold custom_keywords. split; [|split].
  - exists (split_comma custom).
    split; [apply split_comma_join|].
    split; [apply split_comma_pieces|].
    induction (split_comma custom) as [|piece pieces IH];
      cbn [map]; constructor; [apply strip_trimmed | exact IH].
  - rewrite length_map. apply split_comma_length.
  - intros keyword Hin. apply in_map_iff in Hin.
    destruct Hin as (piece & <- & Hin).
    apply strip_keeps_free. exact (split_comma_pieces _ _ Hin).
Qed.

(** (X8) Empty pieces are kept: a [--custom] string that ends with a
    comma gives a last keyword that is empty, one that starts with a comma
    gives a first keyword that is empty, and a string of whitespace alone
    gives the single keyword [""]. *)
Theorem stray_commas_give_empty_keywords (custom : string) :
  custom_keywords (custom ++ ",") =
    (custom_keywords custom ++ [""%string])%list /\
  custom_keywords ("," ++ custom) = ""%string :: custom_keywords custom /\
  (all_space custom = true -> custom_keywords custom = [""%string]).
Proof.
  unfold custom_keywords. split; [|split].
  - rewrite split_comma_snoc, map_app. reflexivity.
  - reflexivity.
  - intros H.
    assert (Hsplit : split_comma custom = [custom]).
    { induction custom as [|c rest IH]; [reflexivity|].
      cbn [all_space] in H. apply andb_true_iff in H. destruct H as [Hc Hr].
      cbn [split_comma].
      destruct (Ascii.eqb_spec c ",") as [->|_]; [discriminate Hc|].
      now rewrite (IH Hr). }
    rewrite Hsplit. cbn [map]. now rewrite strip_all_space.
Qed.

End Strings.

Section CommandLineProperties.

Context (env : Env).

(** The block is the run on the keywords asked for, in the world with the
    key in force; it announces the key when it took it from the command
    line. *)
Lemma main_block_runs (args : Args) (w : World) (ns : list Notice) :
  let '(w', r) :=
    batch_fetch_articles env (keywords_argument args) (args_max args)
      (args_days args) (args_pause args) (world_for args w) in
  exists printed,
    main_block env args (mkShell w ns) =
      (mkShell w' (ns ++ printed), r) /\
    (In NKeyFromCommandLine printed <-> given (args_key args) = true).
Proof.
  destruct args as [mx dy ps custom key]. destruct w as [st k tr].
  unfold main_block, bind, in_shell, notice, modify, ret, world_for,
    key_in_force, keywords_argument, given.
  cbn [args_max args_days args_pause args_custom args_key option_map
       shell_world notices store api_key_env trace].
  destruct key as [key|]; [destruct (key =? "")%string|];
    (destruct custom as [custom|]; [destruct (custom =? "")%string|]);
    cbv beta iota zeta delta
      [negb shell_world notices set_api_key store api_key_env trace
       option_map].
  all: match goal with
       | |- let '(_, _) := ?run in _ => destruct run as [w' r]
       end.
  all: eexists; split;
    [rewrite <- ?app_assoc;
     first [reflexivity
           | instantiate (1 := []); rewrite app_nil_r; reflexivity]|].
  all: cbn; intuition congruence.
Qed.


(** The run of the script is the batch run in the world with the key in
    force. *)
Lemma main_run_is_the_batch_run (args : Args) (w : World) :
  main_run env args w =
  batch_fetch_articles env (keywords_argument args) (args_max args)
    (args_days args) (args_pause args) (world_for args w).
Proof.
  unfold main_run. pose proof (main_block_runs args w []) as H.
  destruct (batch_fetch_articles env (keywords_argument args) (args_max args)
              (args_days args) (args_pause args) (world_for args w))
    as [w' r].
  destruct H as (printed & -> & _). reflexivity.
Qed.

Lemma main_run_emitted (args : Args) (w : World) :
  emitted (main_run env args) w =
  emitted (batch_fetch_articles env (keywords_argument args) (args_max args)
             (args_days args) (args_pause args)) (world_for args w).
Proof.
  unfold emitted. rewrite main_run_is_the_batch_run. reflexivity.
Qed.


(** (X10) A key given with [--key] takes precedence over the environment
    and stays: the run sleeps [max(1, pause // 3)] between keywords
    whatever [NCBI_API_KEY] held, and the variable holds the key of the
    command line afterwards.  Without [--key], or with an empty one, the
    variable is left as it was. *)
Theorem command_line_key_takes_precedence (args : Args) (w : World) :
  let run := main_run env args in
  (forall key,
      args_key args = Some key -> key <> ""%string ->
      api_key_env (fst (run w)) = Some key /\
      forall secs,
        In (CallSleep secs) (emitted run w) ->
        secs = Z.max 1 (args_pause args / 3)) /\
  (given (args_key args) = false ->
   api_key_env (fst (run w)) = api_key_env w).
Proof.
  intros run. unfold run. rewrite main_run_emitted, main_run_is_the_batch_run.
  destruct (batch_fetch_articles_emitted env (keywords_argument args)
              (args_max args) (args_days args) (args_pause args)
              (world_for args w)) as (_ & K & B & _).
  cbn [world_for api_key_env] in K, B. split.
  - intros key Hkey Hne.
    assert (Hforce : key_in_force args w = Some key).
    { unfold key_in_force, given. rewrite Hkey.
      destruct (String.eqb_spec key ""); [contradiction | reflexivity]. }
    rewrite Hforce in K, B. split; [exact K|].
    intros secs Hin. apply sleep_in_beats in Hin. rewrite B in Hin.
    apply loop_beats_pause in Hin. subst secs.
    unfold actual_pause, api_key_truthy.
    destruct (String.eqb_spec key ""); [contradiction | reflexivity].
  - intros Hnot. unfold key_in_force in K. now rewrite Hnot in K.
Qed.

End CommandLineProperties.

Lemma stray_commas_give_empty_keywords_witness :
  custom_keywords "  " = [""%string].
Proof.
  apply (proj2 (proj2 (stray_commas_give_empty_keywords "  "))).
  reflexivity.
Defined.

Lemma command_line_key_takes_precedence_witness :
  api_key_env (fst (main_run env_no_hits args_custom_and_key world_with_key))
    = Some "k"%string /\
  (forall secs,
      In (CallSleep secs)
         (emitted (main_run env_no_hits args_custom_and_key) world_with_key) ->
      secs = 2) /\
  api_key_env (fst (main_run env_no_hits args_default world_with_key)) =
    Some "secret"%string.
Proof.
  split; [|split].
  - apply (proj1 (command_line_key_takes_precedence env_no_hits
                    args_custom_and_key world_with_key) "k"%string);
      [reflexivity | discriminate].
  - apply (proj1 (command_line_key_takes_precedence env_no_hits
                    args_custom_and_key world_with_key) "k"%string);
      [reflexivity | discriminate].
  - apply (proj2 (command_line_key_takes_precedence env_no_hits
                    args_default world_with_key)).
    reflexivity.
Defined.


(** ** The debug probes: calls and results *)

Section ProbeCalls.

Context (env : Env).

(** When the validity test of [perform_test_search] passes and both
    [.get] succeed with a list taken for true, the search result has the
    expected shape. *)
Lemma get_idlist (sr es p : PyVal) :
  contains "esearchresult" sr = inr true ->
  get sr "esearchresult" (PDict []) = inr es ->
  get es "idlist" (PList []) = inr p ->
  truthy p = true ->
  search_idlist sr = Some p.
Proof.
  destruct sr; cbn [contains get]; try discriminate;
    try (intros _ H; discriminate H).
  cbn [search_idlist].
  destruct (lookup "esearchresult" d) as [x|]; [|discriminate].
  intros _ H; injection H as ->.
  destruct es; cbn [get]; try discriminate.
  destruct (lookup "idlist" d0) as [y|].
  - intros H; injection H as ->. reflexivity.
  - intros H; injection H as <-. discriminate.
Qed.

Lemma validity_test_passed (sr : PyVal) :
  (if negb (truthy sr) then inr true
   else match contains "esearchresult" sr with
        | inl e => inl e
        | inr b => inr (negb b)
        end) = inr false ->
  truthy sr = true /\ contains "esearchresult" sr = inr true.
Proof.
  destruct (truthy sr); cbn [negb]; [|discriminate].
  destruct (contains "esearchresult" sr) as [e|[|]]; try discriminate.
  auto.
Qed.

Lemma validity_test_failed (sr : PyVal) (x : Res bool) :
  (if negb (truthy sr) then inr true
   else match contains "esearchresult" sr with
        | inl e => inl e
        | inr b => inr (negb b)
        end) = x ->
  truthy sr = false \/ contains "esearchresult" sr = inr false ->
  x = inr true.
Proof.
  intros <- [H|H]; rewrite H; [reflexivity|].
  destruct (negb (truthy sr)); reflexivity.
Qed.

Lemma perform_test_search_calls (keyword : string) (max_results : Z)
    (w : World) :
  wp (perform_test_search env keyword max_results) w
    (test_search_calls_post keyword max_results w).
Proof.
  unfold perform_test_search, try_test_search.
  apply wp_try_except. repeat probe_step.
  all: try match goal with
           | H : isinstance Exception _ = false |- _ =>
               rewrite isinstance_Exception in H; discriminate H
           end.
  all: do 2 eexists; split; [reflexivity|].
  all: split; [trace_simpl; reflexivity|]; trace_simpl.
  all: try match goal with
           | H : negb (truthy _) = false |- _ =>
               apply negb_false_iff in H
           end.
  all: try match goal with
           | H : negb (rows_truthy ?a) = true |- _ =>
               destruct a; [clear H | discriminate H]
           end.
  all: try match goal with
           | H : negb (rows_truthy _) = false |- _ =>
               apply negb_false_iff, rows_truthy_nonempty in H
           end.
  all: split;
    [first
       [ left; eexists; reflexivity
       | right; do 3 eexists; split; [reflexivity|];
         match goal with
         | H : _ = inr false |- _ =>
             apply validity_test_passed in H; destruct H as [_ H]
         end;
         split; [eapply get_idlist; eassumption | assumption] ]|].
  all: split;
    [intros sr Hin Hbad; in_cases Hin; injection Hin as <-;
     match goal with
     | H : (if negb (truthy _) then _ else _) = _ |- _ =>
         apply validity_test_failed in H; [|exact Hbad]
     end;
     first [discriminate | reflexivity]|].
  all: split;
    [intros Hs; first [discriminate Hs | do 2 eexists; cbn; eauto]|].
  all: intros Hs; try discriminate Hs.
  all: first
         [ left; split; [reflexivity | eexists; reflexivity]
         | right; do 2 eexists; cbn; eauto ].
Qed.

End ProbeCalls.

Section ProbeReports.

Context (env : Env).

Lemma perform_test_search_calls_emitted (keyword : string) (max_results : Z)
    (w : World) :
  let run := perform_test_search env keyword max_results in
  test_search_calls_post keyword max_results
    (mkWorld (store w) (api_key_env w) (trace w))
    (mkWorld (store w) (api_key_env w) (trace w ++ emitted run w))
    (snd (run w)).
Proof.
  intros run.
  pose proof (perform_test_search_calls env keyword max_results w) as H.
  unfold wp in H. fold run in H.
  destruct H as (evs & res & Hr & T & Hrest).
  assert (E : emitted run w = evs).
  { unfold emitted. fold run. rewrite T. apply skipn_length_app. }
  rewrite E. exists evs, res. cbn [trace]. auto.
Qed.

(** (X11) [test_pubmed_connection] makes exactly one request, a GET of the
    info endpoint, whatever comes back and also when it raises; it makes
    no other call and leaves the environment variable alone. *)
Theorem connection_probe_makes_one_request (w : World) :
  emitted (test_pubmed_connection env) w =
    [CallGet einfo_url (requests_get_answer env einfo_url w)] /\
  api_key_env (fst (test_pubmed_connection env w)) = api_key_env w.
Proof.
  pose proof (test_pubmed_connection_runs env w) as H.
  unfold wp in H. destruct H as [Hw _].
  unfold emitted. rewrite Hw. cbn [trace emit_ev api_key_env].
  split; [apply skipn_length_app | reflexivity].
Qed.

(** (X12) [perform_test_search] makes one search, for the keyword and the
    count given and over 30 days, and then at most one detail fetch; it
    fetches details only for the identifier list of a search result of
    the expected shape, and only when Python takes that list for true. *)
Theorem test_search_makes_at_most_two_calls
    (keyword : string) (max_results : Z) (w : World) :
  let evs := emitted (perform_test_search env keyword max_results) w in
  (exists answer, evs = [CallSearch keyword max_results 30 answer]) \/
  (exists sr p answer,
      evs = [CallSearch keyword max_results 30 (inr sr);
             CallDetails p answer] /\
      search_idlist sr = Some p /\ truthy p = true).
Proof.
  intros evs.
  destruct (perform_test_search_calls_emitted keyword max_results w)
    as (evs' & res & _ & T & Hcalls & _).
  cbn [trace] in T. apply app_inv_head in T. fold evs in T. subst evs'.
  exact Hcalls.
Qed.

(** (X13) What a result of [perform_test_search] tells.  A success means
    that the detail fetch returned records, and the result carries exactly
    those records, their number and the identifier list asked for.  A
    warning is either "no hits", with no detail fetch made, or "no
    details", after a detail fetch that returned nothing.  A search result
    that Python takes for false, or that lacks the key [esearchresult], is
    an error that shows the result, though nothing was raised. *)
Theorem test_search_result_tells_what_happened
    (keyword : string) (max_results : Z) (w : World) :
  let run := perform_test_search env keyword max_results in
  let evs := emitted run w in
  exists res,
    snd (run w) = inr res /\
    (status res = success ->
     exists p articles,
       In (CallDetails p (inr articles)) evs /\ articles <> [] /\
       res = mkResult success (MFetched (len_rows articles))
               (DArticles articles) (Some p)) /\
    (status res = warning ->
     (res = mkResult warning MNoHits (DKeyword keyword) None /\
      exists answer, evs = [CallSearch keyword max_results 30 answer]) \/
     (exists p joined,
         In (CallDetails p (inr [])) evs /\
         join ", " p = inr joined /\
         res = mkResult warning MDetailsFailed (DPmids joined) None)) /\
    (forall sr,
        In (CallSearch keyword max_results 30 (inr sr)) evs ->
        truthy sr = false \/ contains "esearchresult" sr = inr false ->
        res = mkResult error MSearchInvalid (DRepr sr) None).
Proof.
  intros run evs.
  destruct (perform_test_search_calls_emitted keyword max_results w)
    as (evs' & res & Hr & T & _ & Hbad & Hok & Hwarn).
  cbn [trace] in T. apply app_inv_head in T. fold run evs in T, Hr.
  subst evs'. exists res. auto.
Qed.

(** (X14) On an envelope whose [einforesult] is an object the probe
    succeeds and shows the HTTP status and the API version; an envelope
    without a [version] still succeeds, the version shown as unknown. *)
Theorem connection_success_shows_the_version
    (w : World) (resp : Response) (d info : list (string * PyVal)) :
  requests_get_answer env einfo_url w = inr resp ->
  http_ok resp ->
  json resp = inr (PDict d) ->
  lookup "einforesult" d = Some (PDict info) ->
  snd (test_pubmed_connection env w) =
    inr (mkResult success MConnectionOk
           (DVersion (status_code resp)
              (match lookup "version" info with
               | Some version => version
               | None => PStr "不明"
               end))
           None).
Proof.
  intros Ha Hok Hj Hl. probe_unfold. rewrite Ha. probe_cbn.
  unfold http_ok in Hok. rewrite Hok, Hj. probe_cbn. rewrite Hl. probe_cbn.
  reflexivity.
Qed.

Lemma substring_prefix (n : nat) :
  forall s,
    (String.length (substring 0 n s) <= n)%nat /\
    exists rest, s = (substring 0 n s ++ rest)%string.
Proof.
  induction n as [|n IH]; intros s.
  - destruct s; cbn; split; try lia; eexists; reflexivity.
  - destruct s as [|c s]; [cbn; split; [lia | exists ""%string; reflexivity]|].
    cbn [substring String.length String.append].
    destruct (IH s) as (Hlen & rest & Hrest).
    split; [lia|]. exists rest. now rewrite <- Hrest.
Qed.

(** (X15) On a JSON object without the key [einforesult] the probe
    returns a warning that shows the HTTP status and the beginning of the
    body, at most 200 characters of it. *)
Theorem connection_warning_quotes_the_body
    (w : World) (resp : Response) (d : list (string * PyVal)) :
  requests_get_answer env einfo_url w = inr resp ->
  http_ok resp ->
  json resp = inr (PDict d) ->
  lookup "einforesult" d = None ->
  exists quoted rest,
    snd (test_pubmed_connection env w) =
      inr (mkResult warning MUnexpectedFormat
             (DBody (status_code resp) quoted) None) /\
    text resp = (quoted ++ rest)%string /\
    (String.length quoted <= 200)%nat.
Proof.
  intros Ha Hok Hj Hl.
  destruct (substring_prefix 200 (text resp)) as (Hlen & rest & Hrest).
  exists (substring 0 200 (text resp)), rest.
  split; [|split; assumption].
  probe_unfold. rewrite Ha. probe_cbn.
  unfold http_ok in Hok. rewrite Hok, Hj. probe_cbn. rewrite Hl. probe_cbn.
  reflexivity.
Qed.

(** (X16) The first [except] clause wins: a decode error that is a
    [RequestException] (as the one of [requests] itself is) is reported as
    a failed connection with the message of the exception, and only a
    decode error that is not one reaches the clause for invalid JSON,
    which shows the status and the beginning of the body. *)
Theorem decode_error_goes_to_the_first_clause
    (w : World) (resp : Response) (e : Exc) :
  requests_get_answer env einfo_url w = inr resp ->
  http_ok resp ->
  json resp = inl e ->
  (isinstance RequestException e = true ->
   snd (test_pubmed_connection env w) =
     inr (mkResult error MConnectionFailed (DText (str_exc e)) None)) /\
  (isinstance RequestException e = false ->
   isinstance JSONDecodeError e = true ->
   snd (test_pubmed_connection env w) =
     inr (mkResult error MInvalidJson
            (DBody (status_code resp) (substring 0 200 (text resp))) None)).
Proof.
  intros Ha Hok Hj. unfold http_ok in Hok. split.
  - intros Hre. probe_unfold. rewrite Ha. probe_cbn.
    rewrite Hok, Hj. probe_cbn. rewrite Hre. reflexivity.
  - intros Hre Hjd. probe_unfold. rewrite Ha. probe_cbn.
    rewrite Hok, Hj. probe_cbn. rewrite Hre, Hjd. reflexivity.
Qed.

End ProbeReports.

Lemma test_search_result_tells_what_happened_witness :
  exists res p articles,
    snd (perform_test_search env_one_new "crowding" 2 empty_world) =
      inr res /\
    In (CallDetails p (inr articles))
       (emitted (perform_test_search env_one_new "crowding" 2) empty_world) /\
    articles <> [] /\
    res = mkResult success (MFetched (len_rows articles))
            (DArticles articles) (Some p).
Proof.
  destruct (test_search_result_tells_what_happened env_one_new "crowding" 2
              empty_world) as (res & Hr & Hs & _).
  assert (S : status res = success).
  { vm_compute in Hr. injection Hr as <-. reflexivity. }
  destruct (Hs S) as (p & articles & H).
  exists res, p, articles. split; [exact Hr | exact H].
Defined.

Lemma connection_success_shows_the_version_witness :
  snd (test_pubmed_connection env_info_no_version empty_world) =
    inr (mkResult success MConnectionOk (DVersion 200 (PStr "不明")) None).
Proof.
  apply (connection_success_shows_the_version env_info_no_version
           empty_world
           (mkResponse 200 ("{" ++ dq ++ "einforesult" ++ dq ++ ": {}}")
              (inr (PDict [("einforesult", PDict [])])))
           [("einforesult", PDict [])] []); reflexivity.
Defined.

Lemma connection_warning_quotes_the_body_witness :
  exists quoted rest,
    snd (test_pubmed_connection env_empty_object empty_world) =
      inr (mkResult warning MUnexpectedFormat (DBody 200 quoted) None) /\
    "{}"%string = (quoted ++ rest)%string /\
    (String.length quoted <= 200)%nat.
Proof.
  apply (connection_warning_quotes_the_body env_empty_object empty_world
           (mkResponse 200 "{}" (inr (PDict []))) []); reflexivity.
Defined.

Lemma decode_error_goes_to_the_first_clause_witness :
  snd (test_pubmed_connection env_not_json empty_world) =
    inr (mkResult error MConnectionFailed (DText "Expecting value") None) /\
  snd (test_pubmed_connection env_not_json_plain empty_world) =
    inr (mkResult error MInvalidJson (DBody 200 "<html>") None).
Proof.
  split.
  - apply (proj1 (decode_error_goes_to_the_first_clause env_not_json
                    empty_world
                    (mkResponse 200 "<html>"
                       (inl (mkExc RequestsJSONDecodeError
                               "Expecting value")))
                    (mkExc RequestsJSONDecodeError "Expecting value")
                    eq_refl eq_refl eq_refl)).
    reflexivity.
  - apply (proj2 (decode_error_goes_to_the_first_clause env_not_json_plain
                    empty_world
                    (mkResponse 200 "<html>"
                       (inl (mkExc JSONDecodeError "Expecting value")))
                    (mkExc JSONDecodeError "Expecting value")
                    eq_refl eq_refl eq_refl)); reflexivity.
Defined.
